(** * Telegram IP bot: a shallow embedding of [main.py]

    The script is embedded as a state-and-exception monad over a [world]
    that holds what the script can observe or change: the file system
    around the configuration file, the module globals [configuration] and
    [last_ip], and the trace of outward effects (log records, HTTP requests,
    Telegram sends, prints, sleeps).  What the network answers is given by
    an environment [env] of oracles indexed by the number of the request. *)

From Stdlib Require Import ZArith Bool List Lia.
From stdpp Require Import base strings gmap.

Set Warnings "-register-all".

Local Open Scope string_scope.
Local Open Scope list_scope.
Local Open Scope Z_scope.

(** ** Python values *)

(** A Python [float], kept by its exact value: [FFin m e] is [m * 2^e]. *)
Inductive pyfloat : Type :=
| FNan
| FInf (negative : bool)
| FFin (m e : Z).

(** The values [json.load] produces. *)
Inductive pyval : Type :=
| PNone
| PBool (b : bool)
| PInt (z : Z)
| PFloat (f : pyfloat)
| PStr (s : string)
| PList (l : list pyval)
| PDict (d : gmap string pyval).

(** [v == None] and [v != None]: among these values only [None] equals
    [None]. *)
Definition is_None (v : pyval) : bool :=
  match v with PNone => true | _ => false end.

Definition not_None (v : pyval) : bool := negb (is_None v).

(** [z == f] for an [int] and a [float]: Python compares the exact values. *)
Definition int_eq_float (z : Z) (f : pyfloat) : bool :=
  match f with
  | FFin m e =>
      if 0 <=? e then z =? m * 2 ^ e
      else (m mod 2 ^ (- e) =? 0) && (z =? m / 2 ^ (- e))
  | _ => false
  end.

(** [s == v] for a [str] [s]: a string equals only an equal string. *)
Definition str_eq (s : string) (v : pyval) : bool :=
  match v with PStr t => String.eqb s t | _ => false end.

(** [z == v] for an [int] [z]: numbers compare by value, and [bool] is a
    subclass of [int] ([True == 1], [False == 0]). *)
Definition int_eq (z : Z) (v : pyval) : bool :=
  match v with
  | PInt y => z =? y
  | PBool b => z =? Z.b2z b
  | PFloat f => int_eq_float z f
  | _ => false
  end.

(** Exceptions.  [SystemExit] is the only one that does not derive from
    [Exception], so an [except Exception] clause lets it through. *)
Inductive exn : Type :=
| KeyError
| TypeError
| AttributeError
| NameError
| OSError
| JSONDecodeError
| UnicodeDecodeError
| RequestException
| TelegramError
| SystemExit (code : Z).

Definition is_Exception (e : exn) : bool :=
  match e with SystemExit _ => false | _ => true end.

(** [v[key]] with a string key: a dict looks the key up, the other values
    do not take a string subscript. *)
Definition getitem (v : pyval) (key : string) : exn + pyval :=
  match v with
  | PDict d =>
      match d !! key with
      | Some x => inr x
      | None => inl KeyError
      end
  | _ => inl TypeError
  end.

(** ** Effects *)

Inductive level : Type := INFO | WARNING | ERROR.

(** An f-string, kept as its pieces: literal text and interpolated values. *)
Inductive frag : Type :=
| L (s : string)
| V (v : pyval).

Inductive event : Type :=
| Log (lv : level) (msg : list frag)
| LogException (e : exn)
| Print (s : string)
| HttpGet (url : string)
| SendMessage (chat_id : pyval) (text : string) (delivered : bool)
| BotCreated (token : pyval)
| MessageLoopStarted
| Sleep (seconds : Z).

(** What is stored under a path, as far as the script can tell. *)
Inductive content : Type :=
| Empty
| Json (v : pyval)
| Garbage.

Inductive node : Type :=
| Directory
| File (readable writable : bool) (c : content).

(** What [requests.get] comes back with: an exception, or a response with
    its status code and its body ([None] when the body is not UTF-8, so
    that [decode] raises). *)
Inductive http_outcome : Type :=
| HttpRaise
| HttpResponse (status_code : Z) (body : option string).

Record env : Type := {
  http_get : nat -> http_outcome;
  bot_send : nat -> bool
}.

Record world : Type := {
  fs : gmap string node;
  can_create : bool;
  configuration : option pyval;
  last_ip : option string;
  n_http : nat;
  n_send : nat;
  trace : list event
}.

Definition set_fs (f : gmap string node) (w : world) : world :=
  {| fs := f; can_create := can_create w; configuration := configuration w;
     last_ip := last_ip w; n_http := n_http w; n_send := n_send w;
     trace := trace w |}.

Definition set_configuration (c : option pyval) (w : world) : world :=
  {| fs := fs w; can_create := can_create w; configuration := c;
     last_ip := last_ip w; n_http := n_http w; n_send := n_send w;
     trace := trace w |}.

Definition set_last_ip (ip : option string) (w : world) : world :=
  {| fs := fs w; can_create := can_create w; configuration := configuration w;
     last_ip := ip; n_http := n_http w; n_send := n_send w;
     trace := trace w |}.

Definition emit (ev : event) (w : world) : world :=
  {| fs := fs w; can_create := can_create w; configuration := configuration w;
     last_ip := last_ip w; n_http := n_http w; n_send := n_send w;
     trace := trace w ++ [ev] |}.

Definition tick_http (w : world) : world :=
  {| fs := fs w; can_create := can_create w; configuration := configuration w;
     last_ip := last_ip w; n_http := S (n_http w); n_send := n_send w;
     trace := trace w |}.

Definition tick_send (w : world) : world :=
  {| fs := fs w; can_create := can_create w; configuration := configuration w;
     last_ip := last_ip w; n_http := n_http w; n_send := S (n_send w);
     trace := trace w |}.

(** ** The monad *)

Module Py.

Inductive result (A : Type) : Type :=
| Ok (a : A)
| Raise (e : exn).
Arguments Ok {A} a.
Arguments Raise {A} e.

Definition M (A : Type) : Type := world -> result A * world.

Definition ret {A} (a : A) : M A := fun w => (Ok a, w).

Definition bind {A B} (m : M A) (k : A -> M B) : M B :=
  fun w =>
    match m w with
    | (Ok a, w') => k a w'
    | (Raise e, w') => (Raise e, w')
    end.

Definition raise {A} (e : exn) : M A := fun w => (Raise e, w).

(** [try: body  except Exception as e: handler e] *)
Definition try_except {A} (body : M A) (handler : exn -> M A) : M A :=
  fun w =>
    match body w with
    | (Ok a, w') => (Ok a, w')
    | (Raise e, w') =>
        if is_Exception e then handler e w' else (Raise e, w')
    end.

Definition get : M world := fun w => (Ok w, w).

Definition modify (f : world -> world) : M unit := fun w => (Ok tt, f w).

Definition lift {A} (r : exn + A) : M A :=
  match r with inl e => raise e | inr a => ret a end.

End Py.

Import Py.

Declare Scope py_scope.
Delimit Scope py_scope with py.
Notation "x <- m ;; k" := (bind m (fun x => k))
  (at level 100, m at next level, k at level 200, right associativity)
  : py_scope.
Notation "m ;; k" := (bind m (fun _ => k))
  (at level 100, k at level 200, right associativity) : py_scope.
Local Open Scope py_scope.

(** ** Primitives of the libraries the script calls *)

(** The objects handed to [json.dump]: a value, or an open file. *)
Inductive pyobj : Type :=
| OVal (v : pyval)
| OFile (path : string).

Definition log (lv : level) (msg : list frag) : M unit :=
  modify (emit (Log lv msg)).

Definition log_exception (e : exn) : M unit :=
  modify (emit (LogException e)).

Definition print (s : string) : M unit := modify (emit (Print s)).

Definition sys_exit {A} (code : Z) : M A := raise (SystemExit code).

Definition time_sleep (seconds : Z) : M unit := modify (emit (Sleep seconds)).

(** [open(path, "r")]: gives the content of a readable file. *)
Definition open_r (path : string) : M content :=
  w <- get ;;
  match fs w !! path with
  | Some (File true _ c) => ret c
  | _ => raise OSError
  end.

(** [open(path, "w")]: truncates a writable file, creates a missing one
    where the directory allows it. *)
Definition open_w (path : string) : M pyobj :=
  w <- get ;;
  match fs w !! path with
  | Some (File r true _) =>
      modify (set_fs (<[path := File r true Empty]> (fs w))) ;;
      ret (OFile path)
  | Some _ => raise OSError
  | None =>
      if can_create w then
        modify (set_fs (<[path := File true true Empty]> (fs w))) ;;
        ret (OFile path)
      else raise OSError
  end.

Definition file_write (path : string) (c : content) : M unit :=
  modify (fun w =>
    set_fs (alter (fun n => match n with
                            | File r wr _ => File r wr c
                            | Directory => Directory
                            end) path (fs w)) w).

(** [json.load(file)] *)
Definition json_load (c : content) : M pyval :=
  match c with
  | Json v => ret v
  | _ => raise JSONDecodeError
  end.

(** [json.dump(obj, fp, indent = 4)]: [obj] is serialised first, and a file
    object is not serialisable; the text then goes to [fp.write], which a
    value does not have. *)
Definition json_dump (obj fp : pyobj) : M unit :=
  match obj with
  | OFile _ => raise TypeError
  | OVal v =>
      match fp with
      | OFile path => file_write path (Json v)
      | OVal _ => raise AttributeError
      end
  end.

(** ** Constants *)

Definition CONFIGURATION_FILE_PATH : string := "configuration.json".

(** ** Filesystem logic *)

Definition file_exists (path : string) : M bool :=
  w <- get ;;
  ret (match fs w !! path with
       | Some (File readable _ _) => readable
       | _ => false
       end).

Definition read_json (path : string) : M pyval :=
  try_except
    (file <- open_r path ;;
     data <- json_load file ;;
     log INFO [L "Read JSON data at `"; V (PStr path); L "`."] ;;
     ret data)
    (fun exception =>
       log_exception exception ;;
       log ERROR [L "Failed to read JSON data from `"; V (PStr path); L "`."] ;;
       ret PNone).

Definition write_json (path : string) (data : pyval) : M bool :=
  try_except
    (file <- open_w path ;;
     json_dump file (OVal data) ;;
     log INFO [L "Wrote JSON data to `"; V (PStr path); L "`."] ;;
     ret true)
    (fun exception =>
       log_exception exception ;;
       log ERROR [L "Failed to write JSON data to `"; V (PStr path); L "`"] ;;
       ret false).

(** ** JSON configuration *)

(** Reading the module global [configuration]. *)
Definition global_configuration : M pyval :=
  w <- get ;;
  match configuration w with
  | Some v => ret v
  | None => raise NameError
  end.

(** The body subscripts the global [configuration], not its parameter
    [dictionary].  The result of the [try] block is [Some value] when it
    returns, [None] when control falls out of it. *)
Definition read_field (key : string) (dictionary : pyval) : M pyval :=
  returned <-
    try_except
      (configuration <- global_configuration ;;
       value <- lift (getitem configuration key) ;;
       if not_None value then ret (Some value)
       else
         log INFO [L "Read value of `"; V (PStr key); L "`."] ;;
         ret None)
      (fun exception => log_exception exception ;; ret None) ;;
  match returned with
  | Some value => ret value
  | None =>
      log ERROR [L "Failed to read value of `"; V (PStr key); L "`."] ;;
      ret PNone
  end.

Record config : Type := {
  bot_token : pyval;
  admin_username : pyval;
  admin_chat_id : pyval
}.

Definition template : pyval :=
  PDict (<["bot_token" := PStr "bot token here"]>
        (<["admin_username" := PStr "Telegram username here"]>
        (<["admin_chat_id" := PInt 12345]> ∅))).

(** The module-level statements that load the configuration. *)
Definition load_configuration : M config :=
  found <- file_exists CONFIGURATION_FILE_PATH ;;
  if found then
    configuration <- read_json CONFIGURATION_FILE_PATH ;;
    modify (set_configuration (Some configuration)) ;;
    if not_None configuration then
      bot_token <- read_field "bot_token" configuration ;;
      admin_username <- read_field "admin_username" configuration ;;
      admin_chat_id <- read_field "admin_chat_id" configuration ;;
      if is_None bot_token || is_None admin_username || is_None admin_chat_id
      then
        log ERROR [L "Failed to read JSON configuration."] ;;
        print "Either repair the existing JSON configuration, or delete it and re-run this script." ;;
        sys_exit 1
      else
        log INFO [L "Successfully read JSON configuration."] ;;
        ret {| bot_token := bot_token; admin_username := admin_username;
               admin_chat_id := admin_chat_id |}
    else
      log ERROR [L "Failed to read JSON configuration file."] ;;
      sys_exit 1
  else
    log WARNING [L "No configuration file found, creating one..."] ;;
    write_json CONFIGURATION_FILE_PATH template ;;
    print "Please edit the configuration file and re-run this script." ;;
    sys_exit 0.

(** ** The running bot *)

(** An inbound message.  telepot hands the handler the message of an update
    as the dict decoded from the Bot API's JSON; the record keeps what the
    handler asks of it: what [telepot.glance] makes of it (an exception when
    no content key is found), the sender's user name (absent for a sender
    without one), and the text. *)
Record message : Type := {
  glance : option (string * string * Z);
  from_username : option string;
  text : option string
}.

(** [telepot.glance(msg)] *)
Definition telepot_glance (msg : message) : M (string * string * Z) :=
  match glance msg with
  | Some g => ret g
  | None => raise KeyError
  end.

(** [msg["from"]["username"]] *)
Definition msg_from_username (msg : message) : M string :=
  match from_username msg with
  | Some u => ret u
  | None => raise KeyError
  end.

(** [msg.text]: the message is a dict, whose keys are reached by subscript
    ([msg["text"]]); a dict object has no attribute [text], whatever its
    keys. *)
Definition msg_attr_text (msg : message) : M pyval := raise AttributeError.

(** The texts the bot sends. *)
Definition ip_notice (ip : string) : string :=
  "New public IP address detected: `" +:+ ip +:+ "`.".

Definition ip_reply (ip : string) : string := "IP: `" +:+ ip +:+ "`.".

Definition unauthorized_notice : string :=
  "You are not authorized to interact with this bot.".

(** [current_ip != last_ip], for a string [current_ip]. *)
Definition ip_differs (current_ip : string) (last : option string) : bool :=
  match last with
  | Some ip => negb (String.eqb current_ip ip)
  | None => true
  end.

Section Bot.

Variable E : env.
Variable cfg : config.

(** [requests.get(url, verify=False, timeout=10.0)] *)
Definition requests_get (url : string) : M (Z * option string) :=
  w <- get ;;
  modify (fun w => tick_http (emit (HttpGet url) w)) ;;
  match http_get E (n_http w) with
  | HttpRaise => raise RequestException
  | HttpResponse status_code body => ret (status_code, body)
  end.

(** [response.content.decode("utf8")] *)
Definition decode (body : option string) : M string :=
  match body with
  | Some s => ret s
  | None => raise UnicodeDecodeError
  end.

(** [bot.sendMessage(chat_id, message)] *)
Definition bot_sendMessage (chat_id : pyval) (message : string) : M unit :=
  w <- get ;;
  let delivered := bot_send E (n_send w) in
  modify (fun w => tick_send (emit (SendMessage chat_id message delivered) w)) ;;
  if delivered then ret tt else raise TelegramError.

(** *** IP features *)

Definition get_ip : M (option string) :=
  try_except
    (response <- requests_get "https://api.ipify.org" ;;
     if fst response =? 200 then
       response_body <- decode (snd response) ;;
       log INFO [L "Response from `https://api.ipify.org`: `";
                 V (PStr response_body); L "`."] ;;
       ret (Some response_body)
     else
       log ERROR [L "Failed to get IP address (response.status_code: `";
                  V (PInt (fst response)); L "`)."] ;;
       ret None)
    (fun exception =>
       log_exception exception ;;
       log ERROR [L "An unexpected exception occurred while trying to obtain the public IP address of the host machine."] ;;
       ret None).

(** *** Telegram bot *)

Definition send_message (chat_id : pyval) (message : string) : M bool :=
  try_except
    (bot_sendMessage chat_id message ;;
     log INFO [L "Sent message: `"; V (PStr message);
               L "` to chat ID: `"; V chat_id; L "`."] ;;
     ret true)
    (fun exception =>
       log_exception exception ;;
       log ERROR [L "An unexpected exception occurred while trying to send a message."] ;;
       ret false).

(** [send_message(text)]: the function takes two positional arguments, and
    a call that gives one is a [TypeError] raised before the body runs. *)
Definition send_message_one_argument (first : pyval) : M bool :=
  raise TypeError.

Definition check_ip : M unit :=
  current_ip <- get_ip ;;
  match current_ip with
  | None => log ERROR [L "Failed to update IP address."]
  | Some current_ip =>
      w <- get ;;
      if ip_differs current_ip (last_ip w) then
        let message := ip_notice current_ip in
        log INFO [L message] ;;
        update_ip <-
          (if not_None (admin_chat_id cfg)
           then send_message (admin_chat_id cfg) message
           else ret true) ;;
        if update_ip then modify (set_last_ip (Some current_ip))
        else ret tt
      else ret tt
  end.

(** The handler's test: text, private chat, and by the specified user. *)
Definition authorized (content_type chat_type chat_username : string)
    (chat_id : Z) : bool :=
  String.eqb content_type "text" && String.eqb chat_type "private"
  && str_eq chat_username (admin_username cfg)
  && int_eq chat_id (admin_chat_id cfg).

(** The handler's statements after its first log record: the authorization
    test and the two branches. *)
Definition respond (content_type chat_type chat_username : string)
    (chat_id : Z) : M unit :=
  if authorized content_type chat_type chat_username chat_id
  then
    ip <- get_ip ;;
    match ip with
    | None =>
        send_message_one_argument (PStr "Failed to obtain IP address.") ;;
        ret tt
    | Some ip =>
        send_message (PInt chat_id) (ip_reply ip) ;;
        ret tt
    end
  else
    log WARNING [L "Received message from unauthorized user: `";
                 V (PStr chat_username); L "` (chat_id: `";
                 V (PInt chat_id); L "`)."] ;;
    send_message (PInt chat_id) unauthorized_notice ;;
    ret tt.

Definition telepot_handle (msg : message) : M unit :=
  try_except
    (g <- telepot_glance msg ;;
     let '(content_type, chat_type, chat_id) := g in
     chat_username <- msg_from_username msg ;;
     msg_text <- msg_attr_text msg ;;
     log INFO [L "Received `"; V (PStr chat_type); L " ";
               V (PStr content_type); L "` message from `";
               V (PStr chat_username); L "` (chat_id: `";
               V (PInt chat_id); L "`): `"; V msg_text; L "`."] ;;
     respond content_type chat_type chat_username chat_id)
    (fun exception =>
       log_exception exception ;;
       log ERROR [L "An unexpected exception occurred while responding to a chat callback."]).

(** [bot = telepot.Bot(bot_token)] and the start of the message loop. *)
Definition start_bot : M unit :=
  modify (emit (BotCreated (bot_token cfg))) ;;
  modify (emit MessageLoopStarted) ;;
  log INFO [L "Telegram bot started and is listening for messages."].

(** *** Main loop *)

(** One turn of [while True], with any body in the place of [check_ip]. *)
Definition loop_turn (body : M unit) : M unit :=
  try_except body
    (fun exception =>
       log_exception exception ;;
       log ERROR [L "An unexpected exception occurred while checking the public IP address of the host machine."]) ;;
  time_sleep 60.

Definition poller_tick : M unit := loop_turn check_ip.

(** The first [n] turns of the loop. *)
Fixpoint main_loop (n : nat) : M unit :=
  match n with
  | O => ret tt
  | S n' => poller_tick ;; main_loop n'
  end.

(** The two activities, interleaved at the grain of whole turns and whole
    handler calls. *)
Inductive activity : Type :=
| Tick
| Inbound (msg : message).

Definition step (a : activity) : M unit :=
  match a with
  | Tick => poller_tick
  | Inbound msg => telepot_handle msg
  end.

Fixpoint run (schedule : list activity) : M unit :=
  match schedule with
  | [] => ret tt
  | a :: rest => step a ;; run rest
  end.

End Bot.

(** The script from its first statement: the configuration, the bot, and
    the activities of [schedule], turns of the main loop with inbound
    messages delivered in between. *)
Definition script (E : env) (schedule : list activity) : M unit :=
  cfg <- load_configuration ;;
  modify (set_last_ip None) ;;
  start_bot cfg ;;
  run E cfg schedule.

Definition initial_world (files : gmap string node) (creatable : bool) : world :=
  {| fs := files; can_create := creatable; configuration := None;
     last_ip := None; n_http := O; n_send := O; trace := [] |}.

(** ** Reading the trace *)

(** The calls of [bot.sendMessage] in a trace, in order: chat id, text, and
    whether the transport took the message. *)
Definition attempts (t : list event) : list (pyval * string * bool) :=
  flat_map (fun ev => match ev with
                      | SendMessage c m d => [(c, m, d)]
                      | _ => []
                      end) t.

(** The messages that went out. *)
Definition deliveries (t : list event) : list (pyval * string) :=
  flat_map (fun a => match a with
                     | (c, m, true) => [(c, m)]
                     | (_, _, false) => []
                     end) (attempts t).

(** The warnings logged. *)
Definition warnings (t : list event) : list (list frag) :=
  flat_map (fun ev => match ev with
                      | Log WARNING msg => [msg]
                      | _ => []
                      end) t.

(** Whether the bot or its message loop was started. *)
Definition started (t : list event) : bool :=
  existsb (fun ev => match ev with
                     | BotCreated _ | MessageLoopStarted => true
                     | _ => false
                     end) t.

(** What [get_ip] makes of an answer of the network. *)
Definition fetched (o : http_outcome) : option string :=
  match o with
  | HttpResponse status_code (Some body) =>
      if status_code =? 200 then Some body else None
  | _ => None
  end.

(** The net effect of one turn of the main loop on [last_ip], and the sends
    it attempts, from what the fetch returned, whether the transport takes
    a message, and the address last recorded. *)
Definition turn_effect (cfg : config) (ip : option string) (delivered : bool)
    (last : option string) : option string * list (pyval * string * bool) :=
  match ip with
  | None => (last, [])
  | Some ip =>
      if ip_differs ip last then
        if not_None (admin_chat_id cfg) then
          (if delivered then Some ip else last,
           [(admin_chat_id cfg, ip_notice ip, delivered)])
        else (Some ip, [])
      else (last, [])
  end.

(** A field of the configuration that is present and not null. *)
Definition has_field (v : pyval) (key : string) : bool :=
  match getitem v key with
  | inr x => not_None x
  | inl _ => false
  end.

(** The value of a field, [None] when the field cannot be read. *)
Definition field (v : pyval) (key : string) : pyval :=
  match getitem v key with
  | inr x => x
  | inl _ => PNone
  end.

(** What [json.load] makes of a file's content, [None] when it raises. *)
Definition parsed (c : content) : pyval :=
  match c with
  | Json v => v
  | _ => PNone
  end.

(** All three required fields are present and not null. *)
Definition complete (v : pyval) : bool :=
  has_field v "bot_token" && has_field v "admin_username"
  && has_field v "admin_chat_id".

(** The fetches numbered [k], [k+1], ... are answered 200 with these
    bodies. *)
Fixpoint fetches_return (E : env) (k : nat) (ips : list string) : Prop :=
  match ips with
  | [] => True
  | ip :: rest =>
      http_get E k = HttpResponse 200 (Some ip) /\ fetches_return E (S k) rest
  end.

(** The record the handler leaves when its body raised. *)
Definition callback_error : event :=
  Log ERROR [L "An unexpected exception occurred while responding to a chat callback."].

(** The record the main loop leaves when [check_ip] raised. *)
Definition check_error : event :=
  Log ERROR [L "An unexpected exception occurred while checking the public IP address of the host machine."].

(** ** Sample inputs *)

Definition sample_cfg : config :=
  {| bot_token := PStr "110201543:AAHdqTcvCH1vGWJxfSeofSAs0K5PALDsaw";
     admin_username := PStr "alice";
     admin_chat_id := PInt 42 |}.

Definition sample_json : pyval :=
  PDict (<["bot_token" := bot_token sample_cfg]>
        (<["admin_username" := admin_username sample_cfg]>
        (<["admin_chat_id" := admin_chat_id sample_cfg]> ∅))).

(** A configuration file without [admin_username]. *)
Definition json_without_username : pyval :=
  PDict (<["bot_token" := bot_token sample_cfg]>
        (<["admin_chat_id" := admin_chat_id sample_cfg]> ∅)).

(** The administrator asks, in the private chat. *)
Definition admin_message : message :=
  {| glance := Some ("text", "private", 42);
     from_username := Some "alice";
     text := Some "ip" |}.

(** Somebody else asks, in the same way. *)
Definition stranger_message : message :=
  {| glance := Some ("text", "private", 42);
     from_username := Some "mallory";
     text := Some "ip" |}.

(** A network that answers every fetch with one address and takes every
    message. *)
Definition steady_net (ip : string) : env :=
  {| http_get := fun _ => HttpResponse 200 (Some ip);
     bot_send := fun _ => true |}.

(** A network on which every fetch fails. *)
Definition dead_net : env :=
  {| http_get := fun _ => HttpRaise; bot_send := fun _ => true |}.

(** A network that answers the fetches with the addresses listed, in order,
    and fails the later ones, and takes a message or not as [sends] says. *)
Definition scripted_net (ips : list string) (sends : nat -> bool) : env :=
  {| http_get := fun k => match nth_error ips k with
                          | Some ip => HttpResponse 200 (Some ip)
                          | None => HttpRaise
                          end;
     bot_send := sends |}.

Definition with_config (v : pyval) : gmap string node :=
  {[ CONFIGURATION_FILE_PATH := File true true (Json v) ]}.

(** ** Logging set-up *)

(** The handler objects: the two the script creates, and any other. *)
Inductive handler : Type :=
| LOG_STREAM_HANDLER
| LOG_FILE_HANDLER
| OtherHandler (id : nat).

#[global] Instance handler_eq_dec : EqDecision handler.
Proof. solve_decision. Defined.

(** A logger: its level ([None] for NOTSET) and its list of handlers. *)
Record logger : Type := {
  logger_level : option level;
  handlers : list handler
}.

Definition LOG_LEVEL : level := INFO.

(** [list.remove(x)]: drops the first occurrence. *)
Fixpoint list_remove (h : handler) (hs : list handler) : list handler :=
  match hs with
  | [] => []
  | x :: rest => if decide (x = h) then rest else x :: list_remove h rest
  end.

(** [Logger.removeHandler] and [Logger.addHandler]. *)
Definition removeHandler (h : handler) (hs : list handler) : list handler :=
  if decide (h ∈ hs) then list_remove h hs else hs.

Definition addHandler (h : handler) (hs : list handler) : list handler :=
  if decide (h ∈ hs) then hs else hs ++ [h].

(** [for handler in logger.handlers: logger.removeHandler(handler)]: the
    iterator is an index into the list that the body shortens; the loop
    ends when the index reaches the length.  [fuel] bounds the turns. *)
Fixpoint remove_each (fuel index : nat) (hs : list handler) : list handler :=
  match fuel with
  | O => hs
  | S fuel' =>
      match hs !! index with
      | None => hs
      | Some h => remove_each fuel' (S index) (removeHandler h hs)
      end
  end.

(** [logging.getLogger(name)]: the logger of that name, made on demand. *)
Definition getLogger (logger_name : string) (loggers : gmap string logger)
    : logger :=
  match loggers !! logger_name with
  | Some lg => lg
  | None => {| logger_level := None; handlers := [] |}
  end.

Definition configure_logger (logger_name : string)
    (loggers : gmap string logger) : logger * gmap string logger :=
  let lg := getLogger logger_name loggers in
  let hs := remove_each (length (handlers lg)) 0 (handlers lg) in
  let hs := addHandler LOG_STREAM_HANDLER hs in
  let hs := addHandler LOG_FILE_HANDLER hs in
  let lg := {| logger_level := Some LOG_LEVEL; handlers := hs |} in
  (lg, <[logger_name := lg]> loggers).

(** Every second element of a list, from the second on. *)
Fixpoint every_second (hs : list handler) : list handler :=
  match hs with
  | _ :: h :: rest => h :: every_second rest
  | _ => []
  end.

(** ** Reading runs of the poller *)

(** The addresses of a sequence of fetches that differ from the one
    recorded before them. *)
Fixpoint changes (last : option string) (ips : list string) : list string :=
  match ips with
  | [] => []
  | ip :: rest =>
      if ip_differs ip last then ip :: changes (Some ip) rest
      else changes last rest
  end.

(** The sleeps in a trace. *)
Definition sleeps (t : list event) : list Z :=
  flat_map (fun ev => match ev with
                      | Sleep seconds => [seconds]
                      | _ => []
                      end) t.

(** The requests in a trace. *)
Definition requests (t : list event) : list string :=
  flat_map (fun ev => match ev with
                      | HttpGet url => [url]
                      | _ => []
                      end) t.

(** A computation that stays off the network and off [last_ip]. *)
Record quiet (w w' : world) : Prop := {
  quiet_http : n_http w' = n_http w;
  quiet_send : n_send w' = n_send w;
  quiet_last_ip : last_ip w' = last_ip w;
  quiet_attempts : attempts (trace w') = attempts (trace w);
  quiet_requests : requests (trace w') = requests (trace w)
}.

Definition offline {A} (m : M A) : Prop := forall w, quiet w (snd (m w)).

(** ** Basic facts *)

Ltac run :=
  unfold bind, ret, raise, try_except, modify, get, lift, log, log_exception,
    print, sys_exit, time_sleep; simpl.

Ltac settle :=
  eexists; split; [reflexivity|]; simpl;
  unfold attempts, warnings; rewrite ?flat_map_app; simpl; rewrite ?app_nil_r;
  repeat split.

Lemma attempts_app (t1 t2 : list event) :
  attempts (t1 ++ t2) = attempts t1 ++ attempts t2.
Proof. unfold attempts. apply flat_map_app. Qed.

Lemma deliveries_app (t1 t2 : list event) :
  deliveries (t1 ++ t2) = deliveries t1 ++ deliveries t2.
Proof. unfold deliveries. rewrite attempts_app. apply flat_map_app. Qed.

Section Facts.

Variable E : env.
Variable cfg : config.

(** [get_ip] always returns, with [fetched] of the network's answer; it
    makes one request, sends nothing and leaves [last_ip] alone. *)
Lemma get_ip_spec (w : world) :
  exists w',
    get_ip E w = (Ok (fetched (http_get E (n_http w))), w')
    /\ last_ip w' = last_ip w
    /\ n_http w' = S (n_http w)
    /\ n_send w' = n_send w
    /\ fs w' = fs w
    /\ attempts (trace w') = attempts (trace w)
    /\ warnings (trace w') = warnings (trace w).
Proof.
  unfold get_ip, requests_get, decode. run.
  destruct (http_get E (n_http w)) as [|status [body|]]; simpl;
    try destruct (status =? 200); simpl; settle.
Qed.

(** [send_message] always returns, with what the transport answered; it is
    one attempt, and [last_ip] stays. *)
Lemma send_message_spec (chat_id : pyval) (message : string) (w : world) :
  exists w',
    send_message E chat_id message w = (Ok (bot_send E (n_send w)), w')
    /\ last_ip w' = last_ip w
    /\ n_http w' = n_http w
    /\ n_send w' = S (n_send w)
    /\ fs w' = fs w
    /\ attempts (trace w')
       = attempts (trace w) ++ [(chat_id, message, bot_send E (n_send w))]
    /\ warnings (trace w') = warnings (trace w).
Proof.
  unfold send_message, bot_sendMessage. run.
  destruct (bot_send E (n_send w)); simpl; settle.
Qed.

(** One turn of the main loop always completes, and its effect is
    [turn_effect]. *)
Lemma poller_tick_spec (w : world) :
  exists w',
    poller_tick E cfg w = (Ok tt, w')
    /\ n_http w' = S (n_http w)
    /\ fs w' = fs w
    /\ (let eff := turn_effect cfg (fetched (http_get E (n_http w)))
                               (bot_send E (n_send w)) (last_ip w) in
        last_ip w' = fst eff
        /\ attempts (trace w') = attempts (trace w) ++ snd eff
        /\ n_send w' = (n_send w + length (snd eff))%nat).
Proof.
  unfold poller_tick, loop_turn, check_ip.
  destruct (get_ip_spec w) as (w1 & Hget & Hl1 & Hh1 & Hs1 & Hf1 & Ha1 & _).
  unfold try_except at 1. unfold bind at 1. unfold bind at 1. rewrite Hget.
  destruct (fetched (http_get E (n_http w))) as [ip|]; simpl.
  - unfold bind at 1. unfold get at 1. rewrite Hl1.
    destruct (ip_differs ip (last_ip w)); simpl.
    + destruct (not_None (admin_chat_id cfg)); simpl.
      * destruct (send_message_spec (admin_chat_id cfg) (ip_notice ip)
                    (emit (Log INFO [L (ip_notice ip)]) w1))
          as (w2 & Hsend & Hl2 & Hh2 & Hs2 & Hf2 & Ha2 & _).
        simpl in *. run. rewrite Hsend. rewrite Hs1 in *.
        destruct (bot_send E (n_send w)) eqn:Hb; simpl;
          (eexists; split; [reflexivity|]); simpl;
          rewrite ?attempts_app, ?Ha2, ?attempts_app, ?Ha1, ?Hl2, ?Hl1, ?Hh2,
            ?Hh1, ?Hs2, ?Hs1, ?Hf2, ?Hf1; simpl; rewrite ?app_nil_r;
          repeat split; lia.
      * run. eexists; split; [reflexivity|]; simpl.
        rewrite ?attempts_app, ?Ha1, ?Hh1, ?Hs1, ?Hf1; simpl;
          rewrite ?app_nil_r; repeat split; lia.
    + run. eexists; split; [reflexivity|]; simpl.
      rewrite ?attempts_app, ?Ha1, ?Hh1, ?Hs1, ?Hf1, ?Hl1; simpl;
        rewrite ?app_nil_r; repeat split; lia.
  - run. eexists; split; [reflexivity|]; simpl.
    rewrite ?attempts_app, ?Ha1, ?Hh1, ?Hs1, ?Hf1, ?Hl1; simpl;
      rewrite ?app_nil_r; repeat split; lia.
Qed.

(** The handler's first log record reads [msg.text], which raises: every
    call of the handler ends in its [except] clause, before the
    authorization test. *)
Lemma telepot_handle_swallows (msg : message) (w : world) :
  exists e,
    is_Exception e = true
    /\ telepot_handle E cfg msg w
       = (Ok tt, emit callback_error (emit (LogException e) w)).
Proof.
  unfold telepot_handle, telepot_glance, msg_from_username, msg_attr_text.
  run.
  destruct (glance msg) as [[[content_type chat_type] chat_id]|]; simpl;
    [destruct (from_username msg); simpl|];
    eexists; (split; [|reflexivity]); reflexivity.
Qed.

Lemma telepot_handle_frame (msg : message) (w : world) :
  exists w',
    telepot_handle E cfg msg w = (Ok tt, w')
    /\ last_ip w' = last_ip w
    /\ n_http w' = n_http w
    /\ n_send w' = n_send w
    /\ fs w' = fs w
    /\ attempts (trace w') = attempts (trace w)
    /\ warnings (trace w') = warnings (trace w).
Proof.
  destruct (telepot_handle_swallows msg w) as (e & _ & H).
  rewrite H. settle.
Qed.

(** The statements after that log record, taken alone. *)
Lemma respond_authorized_reply
    (content_type chat_type chat_username : string) (chat_id : Z)
    (ip : string) (w : world) :
  authorized cfg content_type chat_type chat_username chat_id = true ->
  fetched (http_get E (n_http w)) = Some ip ->
  exists w',
    respond E cfg content_type chat_type chat_username chat_id w = (Ok tt, w')
    /\ n_http w' = S (n_http w)
    /\ last_ip w' = last_ip w
    /\ attempts (trace w')
       = attempts (trace w)
         ++ [(PInt chat_id, ip_reply ip, bot_send E (n_send w))].
Proof.
  intros Hauth Hip. unfold respond. rewrite Hauth.
  destruct (get_ip_spec w) as (w1 & Hget & Hl1 & Hh1 & Hs1 & Hf1 & Ha1 & _).
  unfold bind at 1. rewrite Hget, Hip.
  destruct (send_message_spec (PInt chat_id) (ip_reply ip) w1)
    as (w2 & Hsend & Hl2 & Hh2 & Hs2 & Hf2 & Ha2 & _).
  unfold bind at 1. rewrite Hsend. run.
  eexists; split; [reflexivity|].
  rewrite Hh2, Hh1, Hl2, Hl1, Ha2, Ha1, Hs1. repeat split.
Qed.

Lemma respond_authorized_failure
    (content_type chat_type chat_username : string) (chat_id : Z)
    (w : world) :
  authorized cfg content_type chat_type chat_username chat_id = true ->
  fetched (http_get E (n_http w)) = None ->
  exists w',
    respond E cfg content_type chat_type chat_username chat_id w
    = (Raise TypeError, w')
    /\ attempts (trace w') = attempts (trace w).
Proof.
  intros Hauth Hip. unfold respond. rewrite Hauth.
  destruct (get_ip_spec w) as (w1 & Hget & Hl1 & Hh1 & Hs1 & Hf1 & Ha1 & _).
  unfold bind at 1. rewrite Hget, Hip.
  unfold send_message_one_argument. run.
  eexists; split; [reflexivity|]. exact Ha1.
Qed.

Lemma respond_unauthorized
    (content_type chat_type chat_username : string) (chat_id : Z)
    (w : world) :
  authorized cfg content_type chat_type chat_username chat_id = false ->
  exists w',
    respond E cfg content_type chat_type chat_username chat_id w = (Ok tt, w')
    /\ n_http w' = n_http w
    /\ last_ip w' = last_ip w
    /\ attempts (trace w')
       = attempts (trace w)
         ++ [(PInt chat_id, unauthorized_notice, bot_send E (n_send w))]
    /\ warnings (trace w')
       = warnings (trace w)
         ++ [[L "Received message from unauthorized user: `";
              V (PStr chat_username); L "` (chat_id: `";
              V (PInt chat_id); L "`)."]].
Proof.
  intros Hauth. unfold respond. rewrite Hauth.
  unfold bind at 1. unfold log, modify. cbv beta iota.
  match goal with
  | |- context [bind (send_message E ?c ?m) _ ?w0] =>
      destruct (send_message_spec c m w0)
        as (w2 & Hsend & Hl2 & Hh2 & Hs2 & Hf2 & Ha2 & Hw2)
  end.
  unfold bind at 1. rewrite Hsend. run.
  eexists; split; [reflexivity|].
  rewrite Hh2, Hl2, Ha2, Hw2. simpl.
  unfold attempts, warnings; rewrite !flat_map_app; simpl;
    rewrite ?app_nil_r. repeat split.
Qed.

(** Every activity returns normally. *)
Lemma step_returns (a : activity) (w : world) :
  exists w', step E cfg a w = (Ok tt, w').
Proof.
  destruct a as [|msg]; simpl.
  - destruct (poller_tick_spec w) as (w' & H & _). eauto.
  - destruct (telepot_handle_frame msg w) as (w' & H & _). eauto.
Qed.

Lemma run_cons (a : activity) (rest : list activity) (w w' : world) :
  step E cfg a w = (Ok tt, w') ->
  run E cfg (a :: rest) w = run E cfg rest w'.
Proof. intros H. simpl. unfold bind. rewrite H. reflexivity. Qed.

Lemma run_returns (schedule : list activity) (w : world) :
  exists w', run E cfg schedule w = (Ok tt, w').
Proof.
  revert w. induction schedule as [|a rest IH]; intros w.
  - exists w. reflexivity.
  - destruct (step_returns a w) as (w1 & H1).
    rewrite (run_cons a rest w w1 H1). apply IH.
Qed.

Lemma main_loop_S (n : nat) (w w' : world) :
  poller_tick E cfg w = (Ok tt, w') ->
  main_loop E cfg (S n) w = main_loop E cfg n w'.
Proof. intros H. simpl. unfold bind. rewrite H. reflexivity. Qed.

End Facts.

(** ** The poller *)

Lemma ip_differs_same (ip : string) : ip_differs ip (Some ip) = false.
Proof. simpl. now rewrite String.eqb_refl. Qed.

Lemma ip_differs_other (a b : string) : a <> b -> ip_differs a (Some b) = true.
Proof. intros H. simpl. apply String.eqb_neq in H. now rewrite H. Qed.

Lemma fetched_200 (ip : string) : fetched (HttpResponse 200 (Some ip)) = Some ip.
Proof. reflexivity. Qed.

(** One turn, read off [poller_tick_spec]: the world after it. *)
Lemma poller_tick_effect (E : env) (cfg : config) (w : world) :
  let w' := snd (poller_tick E cfg w) in
  let eff := turn_effect cfg (fetched (http_get E (n_http w)))
                         (bot_send E (n_send w)) (last_ip w) in
  poller_tick E cfg w = (Ok tt, w')
  /\ n_http w' = S (n_http w)
  /\ last_ip w' = fst eff
  /\ attempts (trace w') = attempts (trace w) ++ snd eff
  /\ n_send w' = (n_send w + length (snd eff))%nat.
Proof.
  destruct (poller_tick_spec E cfg w) as (w1 & Hrun & Hh & Hf & Hl & Ha & Hs).
  rewrite Hrun. simpl. repeat split; assumption.
Qed.

(** C3, as amended.  Five turns of the poller whose fetches return
    [A, A, B, B, A] with [A <> B], every send succeeding, entered with
    [last_ip] already equal to [A]: exactly two notifications go out, to the
    admin chat id, the first carrying [B] and the second carrying [A], and
    [last_ip] ends as [A]. *)
Theorem five_ticks_two_notifications
    (E : env) (cfg : config) (w : world) (A B : string) :
  A <> B ->
  last_ip w = Some A ->
  not_None (admin_chat_id cfg) = true ->
  (forall k, bot_send E k = true) ->
  fetches_return E (n_http w) [A; A; B; B; A] ->
  let w' := snd (main_loop E cfg 5 w) in
  fst (main_loop E cfg 5 w) = Ok tt
  /\ deliveries (trace w')
     = deliveries (trace w)
       ++ [(admin_chat_id cfg, ip_notice B); (admin_chat_id cfg, ip_notice A)]
  /\ attempts (trace w')
     = attempts (trace w)
       ++ [(admin_chat_id cfg, ip_notice B, true);
           (admin_chat_id cfg, ip_notice A, true)]
  /\ last_ip w' = Some A.
Proof.
  intros HAB Hlast Hadmin Hsend (F1 & F2 & F3 & F4 & F5 & _).
  assert (HBA : B <> A) by congruence.
  destruct (poller_tick_effect E cfg w) as (R1 & H1 & L1 & A1 & _).
  set (w1 := snd (poller_tick E cfg w)) in *.
  rewrite F1, fetched_200, Hlast in L1, A1. simpl turn_effect in L1, A1.
  rewrite String.eqb_refl in L1, A1. simpl in L1, A1.
  destruct (poller_tick_effect E cfg w1) as (R2 & H2 & L2 & A2 & _).
  set (w2 := snd (poller_tick E cfg w1)) in *.
  rewrite H1, F2, fetched_200, L1 in L2, A2. simpl turn_effect in L2, A2.
  rewrite String.eqb_refl in L2, A2. simpl in L2, A2.
  destruct (poller_tick_effect E cfg w2) as (R3 & H3 & L3 & A3 & _).
  set (w3 := snd (poller_tick E cfg w2)) in *.
  rewrite H2, H1, F3, fetched_200, L2, Hsend in L3, A3.
  unfold turn_effect in L3, A3.
  rewrite (ip_differs_other B A HBA), Hadmin in L3, A3. simpl in L3, A3.
  destruct (poller_tick_effect E cfg w3) as (R4 & H4 & L4 & A4 & _).
  set (w4 := snd (poller_tick E cfg w3)) in *.
  rewrite H3, H2, H1, F4, fetched_200, L3 in L4, A4. simpl turn_effect in L4, A4.
  rewrite String.eqb_refl in L4, A4. simpl in L4, A4.
  destruct (poller_tick_effect E cfg w4) as (R5 & H5 & L5 & A5 & _).
  set (w5 := snd (poller_tick E cfg w4)) in *.
  rewrite H4, H3, H2, H1, F5, fetched_200, L4, Hsend in L5, A5.
  unfold turn_effect in L5, A5.
  rewrite (ip_differs_other A B HAB), Hadmin in L5, A5. simpl in L5, A5.
  rewrite (main_loop_S E cfg 4 w w1 R1), (main_loop_S E cfg 3 w1 w2 R2),
    (main_loop_S E cfg 2 w2 w3 R3), (main_loop_S E cfg 1 w3 w4 R4),
    (main_loop_S E cfg 0 w4 w5 R5).
  simpl main_loop. unfold ret. simpl fst. simpl snd.
  assert (HA : attempts (trace w5)
               = attempts (trace w)
                 ++ [(admin_chat_id cfg, ip_notice B, true);
                     (admin_chat_id cfg, ip_notice A, true)]).
  { rewrite A5, A4, A3, A2, A1. rewrite !app_nil_r, <- app_assoc. reflexivity. }
  repeat split.
  - unfold deliveries. rewrite HA, flat_map_app. reflexivity.
  - exact HA.
  - exact L5.
Qed.

Lemma five_ticks_two_notifications_witness :
  let E := scripted_net ["203.0.113.7"; "203.0.113.7"; "198.51.100.4";
                         "198.51.100.4"; "203.0.113.7"] (fun _ => true) in
  let w := set_last_ip (Some "203.0.113.7") (initial_world ∅ true) in
  let w' := snd (main_loop E sample_cfg 5 w) in
  fst (main_loop E sample_cfg 5 w) = Ok tt
  /\ deliveries (trace w')
     = deliveries (trace w)
       ++ [(PInt 42, ip_notice "198.51.100.4");
           (PInt 42, ip_notice "203.0.113.7")]
  /\ attempts (trace w')
     = attempts (trace w)
       ++ [(PInt 42, ip_notice "198.51.100.4", true);
           (PInt 42, ip_notice "203.0.113.7", true)]
  /\ last_ip w' = Some "203.0.113.7".
Proof.
  intros E w.
  apply (five_ticks_two_notifications E sample_cfg w
           "203.0.113.7" "198.51.100.4").
  - discriminate.
  - reflexivity.
  - reflexivity.
  - intros k. reflexivity.
  - simpl. repeat split.
Defined.

(** C3, as stated, does not hold of the first five turns: [last_ip] starts
    unset, so the first fetch is itself a change, and three notifications go
    out, the first of them carrying [A]. *)
Lemma five_ticks_from_start_notify_thrice :
  let A := "203.0.113.7" in
  let B := "198.51.100.4" in
  let E := scripted_net [A; A; B; B; A] (fun _ => true) in
  let w := initial_world ∅ true in
  let w' := snd (main_loop E sample_cfg 5 w) in
  (A <> B
   /\ not_None (admin_chat_id sample_cfg) = true
   /\ (forall k, bot_send E k = true)
   /\ fetches_return E (n_http w) [A; A; B; B; A])
  /\ deliveries (trace w')
     = [(PInt 42, ip_notice A); (PInt 42, ip_notice B); (PInt 42, ip_notice A)]
  /\ length (deliveries (trace w')) = 3%nat.
Proof.
  cbv zeta. split; [|split; vm_compute; reflexivity].
  repeat split; try reflexivity. discriminate.
Qed.

(** The same for every start in which [last_ip] is unset: the first of the
    five turns announces [A]. *)
Lemma first_fetch_is_announced (E : env) (cfg : config) (w : world) (A : string) :
  last_ip w = None ->
  not_None (admin_chat_id cfg) = true ->
  http_get E (n_http w) = HttpResponse 200 (Some A) ->
  let w' := snd (poller_tick E cfg w) in
  attempts (trace w')
  = attempts (trace w) ++ [(admin_chat_id cfg, ip_notice A, bot_send E (n_send w))]
  /\ last_ip w' = if bot_send E (n_send w) then Some A else None.
Proof.
  intros Hlast Hadmin Hfetch.
  destruct (poller_tick_effect E cfg w) as (_ & _ & Hl & Ha & _).
  rewrite Hfetch, fetched_200, Hlast in Hl, Ha. simpl in Hl, Ha.
  rewrite Hadmin in Hl, Ha. simpl in *. split; assumption.
Qed.

(** C5.  On a turn of the poller whose fetch fails ([get_ip] returns
    [None]), the turn completes, [last_ip] is unchanged, and no send is
    attempted. *)
Theorem failed_fetch_changes_nothing (E : env) (cfg : config) (w : world) :
  fst (get_ip E w) = Ok None ->
  let w' := snd (poller_tick E cfg w) in
  fst (poller_tick E cfg w) = Ok tt
  /\ last_ip w' = last_ip w
  /\ attempts (trace w') = attempts (trace w)
  /\ n_send w' = n_send w.
Proof.
  intros Hfail.
  destruct (get_ip_spec E w) as (w1 & Hget & _).
  rewrite Hget in Hfail. simpl in Hfail.
  assert (Hnone : fetched (http_get E (n_http w)) = None) by congruence.
  destruct (poller_tick_effect E cfg w) as (Hrun & _ & Hl & Ha & Hs).
  rewrite Hnone in Hl, Ha, Hs. simpl in Hl, Ha, Hs.
  rewrite Hrun. simpl. rewrite app_nil_r in Ha.
  repeat split; try assumption. lia.
Qed.

Lemma failed_fetch_changes_nothing_witness :
  let w := set_last_ip (Some "203.0.113.7") (initial_world ∅ true) in
  let w' := snd (poller_tick dead_net sample_cfg w) in
  fst (poller_tick dead_net sample_cfg w) = Ok tt
  /\ last_ip w' = last_ip w
  /\ attempts (trace w') = attempts (trace w)
  /\ n_send w' = n_send w.
Proof.
  intros w. apply (failed_fetch_changes_nothing dead_net sample_cfg w).
  reflexivity.
Defined.

(** A fetch fails exactly when the request raises, the status is not 200,
    or the body does not decode. *)
Lemma get_ip_fails_iff (E : env) (w : world) :
  fst (get_ip E w) = Ok None <-> fetched (http_get E (n_http w)) = None.
Proof.
  destruct (get_ip_spec E w) as (w1 & Hget & _). rewrite Hget. simpl.
  split; congruence.
Qed.

(** C4.  A turn of the poller fetches an address [ip] that differs from
    [last_ip].  When the send to the admin chat id fails, [last_ip] keeps
    its old value, and the next turn that fetches [ip] again attempts the
    same notification again.  When the send succeeds, or no admin chat id
    is configured, [last_ip] becomes [ip]. *)
Theorem failed_send_keeps_last_ip
    (E : env) (cfg : config) (w : world) (ip : string) :
  http_get E (n_http w) = HttpResponse 200 (Some ip) ->
  ip_differs ip (last_ip w) = true ->
  let w1 := snd (poller_tick E cfg w) in
  let w2 := snd (poller_tick E cfg w1) in
  (not_None (admin_chat_id cfg) = true ->
   bot_send E (n_send w) = false ->
   last_ip w1 = last_ip w
   /\ attempts (trace w1)
      = attempts (trace w) ++ [(admin_chat_id cfg, ip_notice ip, false)]
   /\ (http_get E (n_http w1) = HttpResponse 200 (Some ip) ->
       attempts (trace w2)
       = attempts (trace w1)
         ++ [(admin_chat_id cfg, ip_notice ip, bot_send E (n_send w1))]
       /\ last_ip w2
          = if bot_send E (n_send w1) then Some ip else last_ip w))
  /\ (not_None (admin_chat_id cfg) = true ->
      bot_send E (n_send w) = true ->
      last_ip w1 = Some ip
      /\ attempts (trace w1)
         = attempts (trace w) ++ [(admin_chat_id cfg, ip_notice ip, true)])
  /\ (admin_chat_id cfg = PNone ->
      last_ip w1 = Some ip /\ attempts (trace w1) = attempts (trace w)).
Proof.
  intros Hfetch Hdiff w1 w2.
  destruct (poller_tick_effect E cfg w) as (_ & Hh1 & Hl1 & Ha1 & _).
  fold w1 in Hh1, Hl1, Ha1.
  rewrite Hfetch, fetched_200 in Hl1, Ha1. unfold turn_effect in Hl1, Ha1.
  rewrite Hdiff in Hl1, Ha1.
  split; [|split].
  - intros Hadmin Hsend. rewrite Hadmin, Hsend in Hl1, Ha1. simpl in Hl1, Ha1.
    split; [assumption|]. split; [assumption|].
    intros Hagain.
    destruct (poller_tick_effect E cfg w1) as (_ & _ & Hl2 & Ha2 & _).
    fold w2 in Hl2, Ha2.
    rewrite Hagain, fetched_200, Hl1 in Hl2, Ha2. unfold turn_effect in Hl2, Ha2.
    rewrite Hdiff, Hadmin in Hl2, Ha2. simpl in Hl2, Ha2.
    split; assumption.
  - intros Hadmin Hsend. rewrite Hadmin, Hsend in Hl1, Ha1. simpl in Hl1, Ha1.
    split; assumption.
  - intros Hnone. rewrite Hnone in Hl1, Ha1. simpl in Hl1, Ha1.
    rewrite app_nil_r in Ha1. split; assumption.
Qed.

(** The case of the specification: the change from unset to ["1.2.3.4"],
    the first send failing and the second succeeding. *)
Lemma failed_send_keeps_last_ip_witness :
  let E := scripted_net ["1.2.3.4"; "1.2.3.4"] (fun k => negb (Nat.eqb k 0)) in
  let w := initial_world ∅ true in
  let w1 := snd (poller_tick E sample_cfg w) in
  let w2 := snd (poller_tick E sample_cfg w1) in
  last_ip w1 = None
  /\ attempts (trace w1) = [(PInt 42, ip_notice "1.2.3.4", false)]
  /\ attempts (trace w2)
     = [(PInt 42, ip_notice "1.2.3.4", false);
        (PInt 42, ip_notice "1.2.3.4", true)]
  /\ last_ip w2 = Some "1.2.3.4".
Proof.
  intros E w w1 w2.
  destruct (failed_send_keeps_last_ip E sample_cfg w "1.2.3.4"
              eq_refl eq_refl) as [Hfail _].
  destruct (Hfail eq_refl eq_refl) as (Hl1 & Ha1 & Hretry).
  destruct (Hretry eq_refl) as (Ha2 & Hl2).
  fold w1 in Hl1, Ha1, Ha2, Hl2. fold w2 in Ha2, Hl2.
  split; [exact Hl1|]. split; [exact Ha1|].
  split; [rewrite Ha2, Ha1; reflexivity | rewrite Hl2; reflexivity].
Defined.

(** ** The responder *)

(** On a message that [glance] reads and that names its sender, the handler
    stops at [msg.text]. *)
Lemma telepot_handle_stops_at_text
    (E : env) (cfg : config) (msg : message) (w : world)
    (content_type chat_type chat_username : string) (chat_id : Z) :
  glance msg = Some (content_type, chat_type, chat_id) ->
  from_username msg = Some chat_username ->
  telepot_handle E cfg msg w
  = (Ok tt, emit callback_error (emit (LogException AttributeError) w)).
Proof.
  intros Hglance Hfrom.
  unfold telepot_handle, telepot_glance, msg_from_username, msg_attr_text.
  run. rewrite Hglance. simpl. rewrite Hfrom. reflexivity.
Qed.

Lemma trace_after_swallow (e : exn) (w : world) :
  trace (emit callback_error (emit (LogException e) w))
  = trace w ++ [LogException e; callback_error].
Proof. simpl. now rewrite <- app_assoc. Qed.

Lemma attempts_after_swallow (e : exn) (w : world) :
  attempts (trace (emit callback_error (emit (LogException e) w)))
  = attempts (trace w).
Proof.
  rewrite trace_after_swallow, attempts_app. simpl. apply app_nil_r.
Qed.

Lemma warnings_after_swallow (e : exn) (w : world) :
  warnings (trace (emit callback_error (emit (LogException e) w)))
  = warnings (trace w).
Proof.
  rewrite trace_after_swallow. unfold warnings. rewrite flat_map_app. simpl.
  apply app_nil_r.
Qed.

(** C1, where the code departs from it.  On a message that passes the four
    tests of the authorization (text, private chat, the admin's user name,
    the admin's chat id) the handler raises [AttributeError] while it builds
    its first log record, and its [except] clause ends the call: no fetch is
    made and no reply is sent, whatever the network would have answered. *)
Theorem authorized_message_is_not_answered
    (E : env) (cfg : config) (msg : message) (w : world)
    (content_type chat_type chat_username : string) (chat_id : Z) :
  glance msg = Some (content_type, chat_type, chat_id) ->
  from_username msg = Some chat_username ->
  authorized cfg content_type chat_type chat_username chat_id = true ->
  let w' := snd (telepot_handle E cfg msg w) in
  fst (telepot_handle E cfg msg w) = Ok tt
  /\ trace w' = trace w ++ [LogException AttributeError; callback_error]
  /\ n_http w' = n_http w
  /\ attempts (trace w') = attempts (trace w).
Proof.
  intros Hglance Hfrom _.
  rewrite (telepot_handle_stops_at_text E cfg msg w _ _ _ _ Hglance Hfrom).
  cbv zeta. unfold fst, snd.
  split; [reflexivity|]. split; [apply trace_after_swallow|].
  split; [reflexivity|apply attempts_after_swallow].
Qed.

Lemma authorized_message_is_not_answered_witness :
  let E := steady_net "1.2.3.4" in
  let w := initial_world ∅ true in
  let w' := snd (telepot_handle E sample_cfg admin_message w) in
  fst (telepot_handle E sample_cfg admin_message w) = Ok tt
  /\ trace w' = trace w ++ [LogException AttributeError; callback_error]
  /\ n_http w' = n_http w
  /\ attempts (trace w') = attempts (trace w).
Proof.
  intros E w.
  apply (authorized_message_is_not_answered E sample_cfg admin_message w
           "text" "private" "alice" 42); reflexivity.
Defined.

(** C2, where the code departs from it.  On a message that fails the
    authorization the handler also stops at [msg.text]: the rejection is
    neither logged as a warning nor sent, and no fetch is made. *)
Theorem unauthorized_message_is_not_rejected
    (E : env) (cfg : config) (msg : message) (w : world)
    (content_type chat_type chat_username : string) (chat_id : Z) :
  glance msg = Some (content_type, chat_type, chat_id) ->
  from_username msg = Some chat_username ->
  authorized cfg content_type chat_type chat_username chat_id = false ->
  let w' := snd (telepot_handle E cfg msg w) in
  fst (telepot_handle E cfg msg w) = Ok tt
  /\ trace w' = trace w ++ [LogException AttributeError; callback_error]
  /\ attempts (trace w') = attempts (trace w)
  /\ warnings (trace w') = warnings (trace w)
  /\ n_http w' = n_http w.
Proof.
  intros Hglance Hfrom _.
  rewrite (telepot_handle_stops_at_text E cfg msg w _ _ _ _ Hglance Hfrom).
  cbv zeta. unfold fst, snd.
  split; [reflexivity|]. split; [apply trace_after_swallow|].
  split; [apply attempts_after_swallow|].
  split; [apply warnings_after_swallow|reflexivity].
Qed.

Lemma unauthorized_message_is_not_rejected_witness :
  let E := steady_net "1.2.3.4" in
  let w := initial_world ∅ true in
  let w' := snd (telepot_handle E sample_cfg stranger_message w) in
  fst (telepot_handle E sample_cfg stranger_message w) = Ok tt
  /\ trace w' = trace w ++ [LogException AttributeError; callback_error]
  /\ attempts (trace w') = attempts (trace w)
  /\ warnings (trace w') = warnings (trace w)
  /\ n_http w' = n_http w.
Proof.
  intros E w.
  apply (unauthorized_message_is_not_rejected E sample_cfg stranger_message w
           "text" "private" "mallory" 42); reflexivity.
Defined.

(** C6, where the code departs from it.  On an authorized message the
    handler stops at [msg.text], before any fetch; and taken from the
    authorization test on, with the fetch failing, the handler calls
    [send_message] with one argument, which raises [TypeError]: either
    way no failure notice is sent. *)
Theorem failure_notice_is_not_sent
    (E : env) (cfg : config) (msg : message) (w : world)
    (content_type chat_type chat_username : string) (chat_id : Z) :
  glance msg = Some (content_type, chat_type, chat_id) ->
  from_username msg = Some chat_username ->
  authorized cfg content_type chat_type chat_username chat_id = true ->
  fetched (http_get E (n_http w)) = None ->
  attempts (trace (snd (telepot_handle E cfg msg w))) = attempts (trace w)
  /\ fst (respond E cfg content_type chat_type chat_username chat_id w)
     = Raise TypeError
  /\ attempts
       (trace (snd (respond E cfg content_type chat_type chat_username chat_id w)))
     = attempts (trace w).
Proof.
  intros Hglance Hfrom Hauth Hfail.
  rewrite (telepot_handle_stops_at_text E cfg msg w _ _ _ _ Hglance Hfrom).
  split; [apply attempts_after_swallow|].
  destruct (respond_authorized_failure E cfg content_type chat_type
              chat_username chat_id w Hauth Hfail) as (w' & Hr & Ha).
  rewrite Hr. split; [reflexivity|exact Ha].
Qed.

Lemma failure_notice_is_not_sent_witness :
  let w := initial_world ∅ true in
  attempts (trace (snd (telepot_handle dead_net sample_cfg admin_message w)))
  = attempts (trace w)
  /\ fst (respond dead_net sample_cfg "text" "private" "alice" 42 w)
     = Raise TypeError
  /\ attempts (trace (snd (respond dead_net sample_cfg "text" "private" "alice" 42 w)))
     = attempts (trace w).
Proof.
  intros w.
  apply (failure_notice_is_not_sent dead_net sample_cfg admin_message w
           "text" "private" "alice" 42); reflexivity.
Defined.

(** ** The configuration *)

Lemma started_snoc (t : list event) (ev : event) :
  started (t ++ [ev])
  = started t || match ev with
                 | BotCreated _ | MessageLoopStarted => true
                 | _ => false
                 end.
Proof. unfold started. rewrite existsb_app. simpl. now rewrite orb_false_r. Qed.

Lemma getitem_raises_Exception (v : pyval) (key : string) (e : exn) :
  getitem v key = inl e -> is_Exception e = true.
Proof.
  destruct v; simpl; try (intros [= <-]; reflexivity).
  destruct (d !! key); intros [= <-]; reflexivity.
Qed.

Lemma is_None_field (v : pyval) (key : string) :
  is_None (field v key) = negb (has_field v key).
Proof.
  unfold field, has_field, not_None.
  destruct (getitem v key) as [e|x]; simpl; [reflexivity|].
  now rewrite negb_involutive.
Qed.

(** [read_field] returns the field of the global [configuration], or [None];
    it only logs. *)
Lemma read_field_spec (key : string) (dictionary v : pyval) (w : world) :
  configuration w = Some v ->
  exists w',
    read_field key dictionary w = (Ok (field v key), w')
    /\ fs w' = fs w
    /\ configuration w' = configuration w
    /\ started (trace w') = started (trace w).
Proof.
  intros Hcfg. unfold read_field, global_configuration. run. rewrite Hcfg.
  simpl. unfold field.
  destruct (getitem v key) as [e|x] eqn:Hget; simpl.
  - rewrite (getitem_raises_Exception v key e Hget).
    eexists; split; [reflexivity|]; simpl.
    rewrite !started_snoc, !orb_false_r. repeat split; auto.
  - destruct x; simpl;
      (eexists; split; [reflexivity|]; simpl;
       rewrite ?started_snoc, ?orb_false_r; repeat split; auto).
Qed.

(** [read_json] returns what the file parses to, or [None]; it only logs. *)
Lemma read_json_spec (path : string) (w : world) :
  exists w',
    read_json path w
    = (Ok (match fs w !! path with
           | Some (File true _ c) => parsed c
           | _ => PNone
           end), w')
    /\ fs w' = fs w
    /\ configuration w' = configuration w
    /\ started (trace w') = started (trace w).
Proof.
  unfold read_json, open_r, json_load. run.
  destruct (fs w !! path) as [[|[|] wr [|v|]]|]; simpl;
    (eexists; split; [reflexivity|]; simpl;
     rewrite ?started_snoc, ?orb_false_r; repeat split).
Qed.

(** [write_json] never writes: [json.dump] is given the file for the object
    and the data for the file, and raises; what is left is the file as
    [open] made it, empty. *)
Lemma write_json_spec (path : string) (data : pyval) (w : world) :
  exists w',
    write_json path data w = (Ok false, w')
    /\ started (trace w') = started (trace w)
    /\ fs w'
       = match fs w !! path with
         | Some (File r true _) => <[path := File r true Empty]> (fs w)
         | Some _ => fs w
         | None =>
             if can_create w then <[path := File true true Empty]> (fs w)
             else fs w
         end.
Proof.
  unfold write_json, open_w, json_dump. run.
  destruct (fs w !! path) as [[|r [|] c]|]; simpl;
    try destruct (can_create w); simpl;
    (eexists; split; [reflexivity|]; simpl;
     rewrite ?started_snoc, ?orb_false_r; repeat split).
Qed.

Lemma file_exists_spec (path : string) (w : world) :
  file_exists path w
  = (Ok match fs w !! path with
        | Some (File readable _ _) => readable
        | _ => false
        end, w).
Proof. reflexivity. Qed.

(** With a readable configuration file the script goes on exactly when the
    three fields can be read, and exits with code 1 otherwise; the files
    stay as they are. *)
Lemma load_configuration_present (w : world) (writable : bool) (c : content) :
  fs w !! CONFIGURATION_FILE_PATH = Some (File true writable c) ->
  exists w',
    load_configuration w
    = (if complete (parsed c)
       then Ok {| bot_token := field (parsed c) "bot_token";
                  admin_username := field (parsed c) "admin_username";
                  admin_chat_id := field (parsed c) "admin_chat_id" |}
       else Raise (SystemExit 1), w')
    /\ fs w' = fs w
    /\ started (trace w') = started (trace w).
Proof.
  intros Hfile. unfold load_configuration.
  unfold bind at 1. rewrite file_exists_spec, Hfile.
  destruct (read_json_spec CONFIGURATION_FILE_PATH w)
    as (w1 & Hread & Hf1 & Hc1 & Hs1).
  rewrite Hfile in Hread.
  unfold bind at 1. rewrite Hread.
  unfold bind at 1. unfold modify at 1.
  set (v := parsed c) in *.
  set (w2 := set_configuration (Some v) w1).
  destruct (not_None v) eqn:Hv.
  - destruct (read_field_spec "bot_token" v v w2 eq_refl)
      as (w3 & R3 & Hf3 & Hc3 & Hs3).
    destruct (read_field_spec "admin_username" v v w3 (eq_trans Hc3 eq_refl))
      as (w4 & R4 & Hf4 & Hc4 & Hs4).
    destruct (read_field_spec "admin_chat_id" v v w4
                (eq_trans Hc4 (eq_trans Hc3 eq_refl)))
      as (w5 & R5 & Hf5 & Hc5 & Hs5).
    unfold bind at 1. rewrite R3.
    unfold bind at 1. rewrite R4.
    unfold bind at 1. rewrite R5.
    rewrite !is_None_field. unfold complete.
    destruct (has_field v "bot_token"), (has_field v "admin_username"),
      (has_field v "admin_chat_id"); simpl; run;
      (eexists; split; [reflexivity|]; simpl;
       rewrite ?started_snoc, ?orb_false_r, ?Hf5, ?Hf4, ?Hf3, ?Hs5, ?Hs4, ?Hs3;
       simpl; rewrite ?Hf1, ?Hs1; split; reflexivity).
  - assert (Hnone : v = PNone) by (destruct v; try discriminate; reflexivity).
    rewrite Hnone. simpl. run.
    eexists; split; [reflexivity|]; simpl.
    rewrite ?started_snoc, ?orb_false_r, ?Hf1, ?Hs1. split; reflexivity.
Qed.

(** Without a readable configuration file the script tries to write the
    template and exits with code 0; the bot is not started. *)
Lemma load_configuration_absent (w : world) :
  match fs w !! CONFIGURATION_FILE_PATH with
  | Some (File readable _ _) => readable
  | _ => false
  end = false ->
  exists w',
    load_configuration w = (Raise (SystemExit 0), w')
    /\ started (trace w') = started (trace w)
    /\ fs w'
       = match fs w !! CONFIGURATION_FILE_PATH with
         | Some (File r true _) =>
             <[CONFIGURATION_FILE_PATH := File r true Empty]> (fs w)
         | Some _ => fs w
         | None =>
             if can_create w
             then <[CONFIGURATION_FILE_PATH := File true true Empty]> (fs w)
             else fs w
         end.
Proof.
  intros Habsent. unfold load_configuration.
  unfold bind at 1. rewrite file_exists_spec, Habsent.
  unfold bind at 1. unfold log at 1. unfold modify at 1. cbv beta iota.
  match goal with
  | |- context [bind (write_json ?p ?d) _ ?w0] =>
      destruct (write_json_spec p d w0) as (w1 & Hw & Hs & Hf)
  end.
  unfold bind at 1. rewrite Hw. run.
  eexists; split; [reflexivity|]; simpl.
  rewrite ?started_snoc, ?orb_false_r, Hs, Hf. simpl.
  rewrite ?started_snoc, ?orb_false_r. split; reflexivity.
Qed.

(** An exit while the configuration is loaded ends the script. *)
Lemma script_exits (E : env) (schedule : list activity) (w w' : world) (e : exn) :
  load_configuration w = (Raise e, w') ->
  script E schedule w = (Raise e, w').
Proof. intros H. unfold script. unfold bind at 1. now rewrite H. Qed.

(** C7, where the code departs from it.  With no configuration file, and a
    directory that takes new files, the script exits with code 0 before the
    bot or the message loop is started, and a file is created at the
    configuration path; but [write_json] raises [TypeError] inside
    [json.dump] and the file is left empty: it holds no placeholder. *)
Theorem missing_config_leaves_empty_file
    (E : env) (schedule : list activity) (w : world) :
  fs w !! CONFIGURATION_FILE_PATH = None ->
  can_create w = true ->
  let w' := snd (script E schedule w) in
  fst (script E schedule w) = Raise (SystemExit 0)
  /\ fs w' !! CONFIGURATION_FILE_PATH = Some (File true true Empty)
  /\ fs w' !! CONFIGURATION_FILE_PATH <> Some (File true true (Json template))
  /\ In (LogException TypeError) (trace w')
  /\ started (trace w') = started (trace w).
Proof.
  intros Hnone Hcreate.
  assert (Htrace : exists w1,
             load_configuration w = (Raise (SystemExit 0), w1)
             /\ fs w1 = <[CONFIGURATION_FILE_PATH := File true true Empty]> (fs w)
             /\ In (LogException TypeError) (trace w1)
             /\ started (trace w1) = started (trace w)).
  { unfold load_configuration, file_exists, write_json, open_w, json_dump.
    run. rewrite Hnone. simpl. rewrite Hnone. simpl. rewrite Hcreate. simpl.
    eexists; split; [reflexivity|]; simpl. split; [reflexivity|].
    split.
    - rewrite !in_app_iff. simpl. tauto.
    - now rewrite !started_snoc, !orb_false_r. }
  destruct Htrace as (w1 & Hload & Hfs & Hin & Hst).
  rewrite (script_exits E schedule w w1 _ Hload). cbv zeta. unfold fst, snd.
  rewrite Hfs, lookup_insert_eq.
  repeat split; try assumption. discriminate.
Qed.

Lemma missing_config_leaves_empty_file_witness :
  let w := initial_world ∅ true in
  let w' := snd (script dead_net [] w) in
  fst (script dead_net [] w) = Raise (SystemExit 0)
  /\ fs w' !! CONFIGURATION_FILE_PATH = Some (File true true Empty)
  /\ fs w' !! CONFIGURATION_FILE_PATH <> Some (File true true (Json template))
  /\ In (LogException TypeError) (trace w')
  /\ started (trace w') = started (trace w).
Proof.
  intros w.
  apply (missing_config_leaves_empty_file dead_net [] w); reflexivity.
Defined.

(** A field that is missing, or null, cannot be read. *)
Lemma has_field_dict (d : gmap string pyval) (key : string) :
  has_field (PDict d) key = false <-> d !! key = None \/ d !! key = Some PNone.
Proof.
  unfold has_field. simpl. destruct (d !! key) as [x|]; simpl.
  - destruct x; simpl; split; intros H; try discriminate; auto;
      destruct H as [H|H]; discriminate.
  - split; auto.
Qed.

(** C8.  With a readable configuration file in which one of [bot_token],
    [admin_username] and [admin_chat_id] is missing or null, the script
    exits with code 1, the files are as they were, and the bot is not
    started; and the script gets past the configuration only with a readable
    file that parses to a value holding the three fields, none of them
    null. *)
Theorem incomplete_config_exits_1
    (E : env) (schedule : list activity) (w : world) :
  (forall (writable : bool) (c : content),
      fs w !! CONFIGURATION_FILE_PATH = Some (File true writable c) ->
      has_field (parsed c) "bot_token" = false
      \/ has_field (parsed c) "admin_username" = false
      \/ has_field (parsed c) "admin_chat_id" = false ->
      let w' := snd (script E schedule w) in
      fst (script E schedule w) = Raise (SystemExit 1)
      /\ fs w' = fs w
      /\ started (trace w') = started (trace w))
  /\ (forall (cfg : config) (w' : world),
         load_configuration w = (Ok cfg, w') ->
         exists (writable : bool) (v : pyval),
           fs w !! CONFIGURATION_FILE_PATH = Some (File true writable (Json v))
           /\ getitem v "bot_token" = inr (bot_token cfg)
           /\ getitem v "admin_username" = inr (admin_username cfg)
           /\ getitem v "admin_chat_id" = inr (admin_chat_id cfg)
           /\ not_None (bot_token cfg) = true
           /\ not_None (admin_username cfg) = true
           /\ not_None (admin_chat_id cfg) = true
           /\ fs w' = fs w).
Proof.
  split.
  - intros writable c Hfile Hmissing.
    destruct (load_configuration_present w writable c Hfile)
      as (w1 & Hload & Hfs & Hst).
    assert (Hc : complete (parsed c) = false).
    { unfold complete. destruct Hmissing as [H|[H|H]]; rewrite H;
        rewrite ?andb_false_r; reflexivity. }
    rewrite Hc in Hload.
    rewrite (script_exits E schedule w w1 _ Hload). cbv zeta. unfold fst, snd.
    repeat split; assumption.
  - intros cfg w' Hload.
    destruct (fs w !! CONFIGURATION_FILE_PATH) as [[|[|] writable c]|] eqn:Hfile.
    + destruct (load_configuration_absent w) as (w1 & H1 & _);
        [now rewrite Hfile|]. congruence.
    + destruct (load_configuration_present w writable c Hfile)
        as (w1 & H1 & Hfs & _).
      rewrite Hload in H1.
      destruct (complete (parsed c)) eqn:Hc; [|discriminate].
      injection H1 as Hcfg Hw. subst w1.
      unfold complete in Hc. apply andb_prop in Hc as [Hc H3].
      apply andb_prop in Hc as [H1 H2].
      destruct c as [|v|]; try discriminate H1. simpl in *.
      exists writable, v. subst cfg. simpl.
      unfold has_field, field in *.
      destruct (getitem v "bot_token"); [discriminate|].
      destruct (getitem v "admin_username"); [discriminate|].
      destruct (getitem v "admin_chat_id"); [discriminate|].
      repeat split; assumption.
    + destruct (load_configuration_absent w) as (w1 & H1 & _);
        [now rewrite Hfile|]. congruence.
    + destruct (load_configuration_absent w) as (w1 & H1 & _);
        [now rewrite Hfile|]. congruence.
Qed.

(** The case of the specification: [admin_username] is missing. *)
Lemma incomplete_config_exits_1_witness :
  let w := initial_world (with_config json_without_username) true in
  let w' := snd (script dead_net [] w) in
  fst (script dead_net [] w) = Raise (SystemExit 1)
  /\ fs w' = fs w
  /\ started (trace w') = started (trace w).
Proof.
  intros w.
  destruct (incomplete_config_exits_1 dead_net [] w) as [Hexit _].
  apply (Hexit true (Json json_without_username)).
  - reflexivity.
  - right. left. reflexivity.
Defined.

(** A complete configuration file starts the bot. *)
Lemma complete_config_starts :
  let w := initial_world (with_config sample_json) true in
  exists w',
    load_configuration w = (Ok sample_cfg, w')
    /\ started (trace (snd (script dead_net [] w))) = true.
Proof.
  intros w.
  destruct (load_configuration_present w true (Json sample_json) eq_refl)
    as (w1 & Hload & _).
  simpl parsed in Hload.
  replace (complete sample_json) with true in Hload by reflexivity.
  change (load_configuration w = (Ok sample_cfg, w1)) in Hload.
  exists w1. split; [exact Hload|].
  unfold script. unfold bind at 1. rewrite Hload. unfold start_bot. run.
  rewrite !started_snoc. simpl. now rewrite ?orb_true_r.
Qed.

(** ** The two activities together *)

(** One turn of the loop around any body: an [Exception] raised by the body
    is logged, and the turn goes on to its sleep. *)
Lemma loop_turn_catches (body : M unit) (w w1 : world) (e : exn) :
  body w = (Raise e, w1) ->
  is_Exception e = true ->
  loop_turn body w
  = (Ok tt, emit (Sleep 60) (emit check_error (emit (LogException e) w1))).
Proof.
  intros Hbody He. unfold loop_turn. run. now rewrite Hbody, He.
Qed.

Lemma loop_turn_passes (body : M unit) (w w1 : world) :
  body w = (Ok tt, w1) ->
  loop_turn body w = (Ok tt, emit (Sleep 60) w1).
Proof. intros Hbody. unfold loop_turn. run. now rewrite Hbody. Qed.

Lemma main_loop_returns (E : env) (cfg : config) (n : nat) (w : world) :
  fst (main_loop E cfg n w) = Ok tt
  /\ n_http (snd (main_loop E cfg n w)) = (n_http w + n)%nat.
Proof.
  revert w. induction n as [|n IH]; intros w.
  - simpl. split; [reflexivity|lia].
  - destruct (poller_tick_effect E cfg w) as (Hrun & Hh & _).
    rewrite (main_loop_S E cfg n w _ Hrun).
    destruct (IH (snd (poller_tick E cfg w))) as [Hok Hn].
    split; [exact Hok|]. rewrite Hn, Hh. lia.
Qed.

Lemma inbound_all_handled
    (E : env) (cfg : config) (msgs : list message) (w : world) :
  fst (run E cfg (map Inbound msgs) w) = Ok tt
  /\ length (trace (snd (run E cfg (map Inbound msgs) w)))
     = (length (trace w) + 2 * length msgs)%nat.
Proof.
  revert w. induction msgs as [|msg rest IH]; intros w.
  - simpl. split; [reflexivity|lia].
  - destruct (telepot_handle_swallows E cfg msg w) as (e & _ & Hrun).
    simpl map. rewrite (run_cons E cfg (Inbound msg) _ w _ Hrun).
    destruct (IH (emit callback_error (emit (LogException e) w))) as [Hok Hn].
    split; [exact Hok|]. rewrite Hn, trace_after_swallow, length_app. simpl.
    lia.
Qed.

(** C9.  The handler returns normally on every message, and a sequence of
    messages is handled to its end, each leaving its records.  A turn of the
    main loop returns normally: an [Exception] raised in the place of
    [check_ip] is logged and followed by the sleep.  Any number of turns,
    and any interleaving of turns and messages, runs to its end, every turn
    making its fetch. *)
Theorem no_exception_escapes (E : env) (cfg : config) :
  (forall (msg : message) (w : world),
      fst (telepot_handle E cfg msg w) = Ok tt)
  /\ (forall (msgs : list message) (w : world),
         fst (run E cfg (map Inbound msgs) w) = Ok tt
         /\ length (trace (snd (run E cfg (map Inbound msgs) w)))
            = (length (trace w) + 2 * length msgs)%nat)
  /\ (forall (body : M unit) (w w1 : world) (e : exn),
         body w = (Raise e, w1) ->
         is_Exception e = true ->
         loop_turn body w
         = (Ok tt, emit (Sleep 60) (emit check_error (emit (LogException e) w1))))
  /\ (forall (w : world), fst (poller_tick E cfg w) = Ok tt)
  /\ (forall (n : nat) (w : world),
         fst (main_loop E cfg n w) = Ok tt
         /\ n_http (snd (main_loop E cfg n w)) = (n_http w + n)%nat)
  /\ (forall (schedule : list activity) (w : world),
         fst (run E cfg schedule w) = Ok tt).
Proof.
  split; [|split; [|split; [|split; [|split]]]].
  - intros msg w. destruct (telepot_handle_frame E cfg msg w) as (w' & H & _).
    now rewrite H.
  - apply inbound_all_handled.
  - apply loop_turn_catches.
  - intros w. destruct (poller_tick_effect E cfg w) as (H & _). now rewrite H.
  - apply main_loop_returns.
  - intros schedule w. destruct (run_returns E cfg schedule w) as (w' & H).
    now rewrite H.
Qed.

(** A body that raises is caught, at a concrete input. *)
Lemma no_exception_escapes_witness :
  let w := initial_world ∅ true in
  loop_turn (raise KeyError) w
  = (Ok tt, emit (Sleep 60) (emit check_error (emit (LogException KeyError) w)))
  /\ fst (run (steady_net "1.2.3.4") sample_cfg
            [Inbound stranger_message; Tick; Inbound admin_message; Tick] w)
     = Ok tt.
Proof.
  intros w.
  destruct (no_exception_escapes (steady_net "1.2.3.4") sample_cfg)
    as (_ & _ & Hcatch & _ & _ & Hrun).
  split.
  - apply (Hcatch (raise KeyError) w w KeyError); reflexivity.
  - apply Hrun.
Defined.

(** ** The address last recorded *)

Lemma respond_last_ip
    (E : env) (cfg : config)
    (content_type chat_type chat_username : string) (chat_id : Z) (w : world) :
  last_ip (snd (respond E cfg content_type chat_type chat_username chat_id w))
  = last_ip w.
Proof.
  destruct (authorized cfg content_type chat_type chat_username chat_id) eqn:Ha.
  - destruct (fetched (http_get E (n_http w))) as [ip|] eqn:Hf.
    + destruct (respond_authorized_reply E cfg _ _ _ _ ip w Ha Hf)
        as (w' & Hr & _ & Hl & _). now rewrite Hr.
    + unfold respond. rewrite Ha.
      destruct (get_ip_spec E w) as (w1 & Hget & Hl1 & _).
      unfold bind at 1. rewrite Hget, Hf. simpl. exact Hl1.
  - destruct (respond_unauthorized E cfg _ _ _ _ w Ha) as (w' & Hr & _ & Hl & _).
    now rewrite Hr.
Qed.

Lemma step_last_ip (E : env) (cfg : config) (a : activity) (w : world) :
  let w' := snd (step E cfg a w) in
  (n_http w <= n_http w')%nat
  /\ (last_ip w' = last_ip w
      \/ (a = Tick
          /\ exists ip, fetched (http_get E (n_http w)) = Some ip
                        /\ last_ip w' = Some ip)).
Proof.
  destruct a as [|msg]; simpl.
  - destruct (poller_tick_effect E cfg w) as (_ & Hh & Hl & _).
    split; [lia|]. rewrite Hl. unfold turn_effect.
    destruct (fetched (http_get E (n_http w))) as [ip|]; [|now left].
    destruct (ip_differs ip (last_ip w)); [|now left].
    destruct (not_None (admin_chat_id cfg));
      [destruct (bot_send E (n_send w)); [|now left]|];
      right; split; eauto.
  - destruct (telepot_handle_frame E cfg msg w) as (w' & H & Hl & Hh & _).
    rewrite H. simpl. split; [lia|now left].
Qed.

Lemma run_last_ip (E : env) (cfg : config) (schedule : list activity) (w : world) :
  let w' := snd (run E cfg schedule w) in
  (n_http w <= n_http w')%nat
  /\ (last_ip w' = last_ip w
      \/ exists (k : nat) (ip : string),
           (n_http w <= k < n_http w')%nat
           /\ fetched (http_get E k) = Some ip
           /\ last_ip w' = Some ip).
Proof.
  revert w. induction schedule as [|a rest IH]; intros w.
  - simpl. split; [lia|now left].
  - destruct (step_returns E cfg a w) as (w1 & Hstep).
    rewrite (run_cons E cfg a rest w w1 Hstep).
    pose proof (step_last_ip E cfg a w) as Hs. rewrite Hstep in Hs.
    simpl in Hs. destruct Hs as [Hle1 Hs].
    destruct (IH w1) as [Hle2 Hr]. cbv zeta.
    split; [lia|].
    destruct Hr as [Hsame|(k & ip & Hk & Hf & Hl)].
    + rewrite Hsame. destruct Hs as [Hs|(Ha & ip & Hf & Hl)]; [now left|].
      right. exists (n_http w), ip. subst a.
      destruct (poller_tick_effect E cfg w) as (Hrun & Hh & _).
      simpl in Hstep. rewrite Hrun in Hstep. injection Hstep as <-.
      repeat split; try assumption; lia.
    + right. exists k, ip. repeat split; try assumption; lia.
Qed.

(** Past the configuration the script starts the bot with [last_ip] unset
    and goes on to the activities. *)
Lemma script_runs
    (E : env) (schedule : list activity) (w w1 : world) (cfg : config) :
  load_configuration w = (Ok cfg, w1) ->
  exists w2,
    script E schedule w = run E cfg schedule w2
    /\ last_ip w2 = None
    /\ n_http w2 = n_http w1.
Proof.
  intros Hload. unfold script. unfold bind at 1. rewrite Hload.
  unfold start_bot.
  exists (emit (Log INFO [L "Telegram bot started and is listening for messages."])
            (emit MessageLoopStarted
               (emit (BotCreated (bot_token cfg)) (set_last_ip None w1)))).
  repeat split.
Qed.

(** C10.  [last_ip] is unset when the activities start.  Every activity
    leaves it as it was, or, in a turn of the poller, sets it to the string
    that the turn's fetch returned; the handler, and its statements after
    the first log record, leave it as it was.  So once set it is never unset
    again, and at any time it is unset or holds a string returned by a
    successful fetch. *)
Theorem last_ip_invariant (E : env) :
  (forall (w w1 : world) (cfg : config),
      load_configuration w = (Ok cfg, w1) ->
      last_ip (snd (script E [] w)) = None)
  /\ (forall (cfg : config) (a : activity) (w : world),
         let w' := snd (step E cfg a w) in
         last_ip w' = last_ip w
         \/ (a = Tick
             /\ exists ip, fetched (http_get E (n_http w)) = Some ip
                           /\ last_ip w' = Some ip))
  /\ (forall (cfg : config) (msg : message) (w : world),
         last_ip (snd (telepot_handle E cfg msg w)) = last_ip w)
  /\ (forall (cfg : config) (content_type chat_type chat_username : string)
             (chat_id : Z) (w : world),
         last_ip (snd (respond E cfg content_type chat_type chat_username
                         chat_id w))
         = last_ip w)
  /\ (forall (cfg : config) (schedule : list activity) (w : world),
         last_ip w <> None ->
         last_ip (snd (run E cfg schedule w)) <> None)
  /\ (forall (schedule : list activity) (w w1 : world) (cfg : config),
         load_configuration w = (Ok cfg, w1) ->
         let w' := snd (script E schedule w) in
         last_ip w' = None
         \/ exists (k : nat) (ip : string),
              fetched (http_get E k) = Some ip /\ last_ip w' = Some ip).
Proof.
  split; [|split; [|split; [|split; [|split]]]].
  - intros w w1 cfg Hload.
    destruct (script_runs E [] w w1 cfg Hload) as (w2 & Hs & Hl & _).
    rewrite Hs. exact Hl.
  - intros cfg a w. apply (step_last_ip E cfg a w).
  - intros cfg msg w.
    destruct (telepot_handle_frame E cfg msg w) as (w' & H & Hl & _).
    now rewrite H.
  - intros. apply respond_last_ip.
  - intros cfg schedule w Hset.
    destruct (run_last_ip E cfg schedule w) as [_ [Hsame|(k & ip & _ & _ & Hl)]].
    + now rewrite Hsame.
    + rewrite Hl. discriminate.
  - intros schedule w w1 cfg Hload.
    destruct (script_runs E schedule w w1 cfg Hload) as (w2 & Hs & Hl & _).
    cbv zeta. rewrite Hs.
    destruct (run_last_ip E cfg schedule w2) as [_ [Hsame|(k & ip & _ & Hf & Hl')]].
    + left. now rewrite Hsame.
    + right. eauto.
Qed.

(** The invariant at a concrete run: two turns and a message in between. *)
Lemma last_ip_invariant_witness :
  let E := steady_net "1.2.3.4" in
  let w := initial_world (with_config sample_json) true in
  last_ip (snd (script E [] w)) = None
  /\ last_ip (snd (script E [Tick; Inbound admin_message; Tick] w))
     = Some "1.2.3.4".
Proof.
  intros E w.
  destruct complete_config_starts as (w1 & Hload & _). fold w in Hload.
  destruct (last_ip_invariant E) as (Hstart & _ & _ & _ & _ & Hrun).
  split; [exact (Hstart w w1 sample_cfg Hload)|].
  destruct (Hrun [Tick; Inbound admin_message; Tick] w w1 sample_cfg Hload)
    as [Hnone|(k & ip & Hf & Hl)].
  - vm_compute in Hnone. discriminate.
  - rewrite Hl. vm_compute in Hf. congruence.
Defined.

(** ** Further properties of the code *)

(** X1.  [get_ip] always returns: the body of the response, as it is, when
    the request comes back with status 200 and a body that decodes, and
    [None] in every other case; it makes exactly one request. *)
Theorem get_ip_returns_body_or_None (E : env) (w : world) :
  fst (get_ip E w) = Ok (fetched (http_get E (n_http w)))
  /\ n_http (snd (get_ip E w)) = S (n_http w)
  /\ attempts (trace (snd (get_ip E w))) = attempts (trace w)
  /\ last_ip (snd (get_ip E w)) = last_ip w.
Proof.
  destruct (get_ip_spec E w) as (w' & H & Hl & Hh & _ & _ & Ha & _).
  rewrite H. simpl. repeat split; assumption.
Qed.

(** X2.  [send_message] always returns, [True] when the transport takes the
    message and [False] when it raises; either way it is exactly one
    attempt, with the chat id and the text it was given. *)
Theorem send_message_one_attempt
    (E : env) (chat_id : pyval) (message : string) (w : world) :
  fst (send_message E chat_id message w) = Ok (bot_send E (n_send w))
  /\ attempts (trace (snd (send_message E chat_id message w)))
     = attempts (trace w) ++ [(chat_id, message, bot_send E (n_send w))]
  /\ n_send (snd (send_message E chat_id message w)) = S (n_send w).
Proof.
  destruct (send_message_spec E chat_id message w)
    as (w' & H & _ & _ & Hs & _ & Ha & _).
  rewrite H. simpl. repeat split; assumption.
Qed.




(** X5.  The handler answers no message at all: whatever the message, the
    configuration and the network, a call of the handler adds two records
    to the log, the exception and the error, makes no request and sends
    nothing. *)
Theorem handler_never_sends
    (E : env) (cfg : config) (msg : message) (w : world) :
  exists e,
    is_Exception e = true
    /\ telepot_handle E cfg msg w
       = (Ok tt, emit callback_error (emit (LogException e) w))
    /\ attempts (trace (snd (telepot_handle E cfg msg w))) = attempts (trace w)
    /\ n_http (snd (telepot_handle E cfg msg w)) = n_http w.
Proof.
  destruct (telepot_handle_swallows E cfg msg w) as (e & He & H).
  exists e. rewrite H. simpl snd.
  repeat split; try assumption. apply attempts_after_swallow.
Qed.

(** X6.  The handler's statements from the authorization test on, for an
    authorized message and a fetch that succeeds: one fetch, and one send
    to the chat id of the message, of the text [IP: `<value>`.] with the
    fetched value between backticks. *)
Theorem respond_sends_ip_in_backticks
    (E : env) (cfg : config)
    (content_type chat_type chat_username : string) (chat_id : Z)
    (ip : string) (w : world) :
  authorized cfg content_type chat_type chat_username chat_id = true ->
  http_get E (n_http w) = HttpResponse 200 (Some ip) ->
  let w' := snd (respond E cfg content_type chat_type chat_username chat_id w) in
  fst (respond E cfg content_type chat_type chat_username chat_id w) = Ok tt
  /\ n_http w' = S (n_http w)
  /\ attempts (trace w')
     = attempts (trace w)
       ++ [(PInt chat_id, "IP: `" +:+ ip +:+ "`.", bot_send E (n_send w))].
Proof.
  intros Hauth Hfetch.
  destruct (respond_authorized_reply E cfg content_type chat_type
              chat_username chat_id ip w Hauth)
    as (w' & Hr & Hh & _ & Ha); [now rewrite Hfetch|].
  rewrite Hr. cbv zeta. unfold fst, snd. repeat split; assumption.
Qed.

Lemma respond_sends_ip_in_backticks_witness :
  let E := steady_net "1.2.3.4" in
  let w := initial_world ∅ true in
  let w' := snd (respond E sample_cfg "text" "private" "alice" 42 w) in
  fst (respond E sample_cfg "text" "private" "alice" 42 w) = Ok tt
  /\ n_http w' = S (n_http w)
  /\ attempts (trace w')
     = attempts (trace w) ++ [(PInt 42, "IP: `1.2.3.4`.", true)].
Proof.
  intros E w.
  apply (respond_sends_ip_in_backticks E sample_cfg "text" "private" "alice"
           42 "1.2.3.4" w); reflexivity.
Defined.

(** X7.  The handler's statements from the authorization test on, for a
    message that fails the test: the warning is logged with the user name
    and the chat id, the fixed message is sent to the chat id of the
    message, and no fetch is made. *)
Theorem respond_rejects_unauthorized
    (E : env) (cfg : config)
    (content_type chat_type chat_username : string) (chat_id : Z) (w : world) :
  authorized cfg content_type chat_type chat_username chat_id = false ->
  let w' := snd (respond E cfg content_type chat_type chat_username chat_id w) in
  fst (respond E cfg content_type chat_type chat_username chat_id w) = Ok tt
  /\ n_http w' = n_http w
  /\ attempts (trace w')
     = attempts (trace w)
       ++ [(PInt chat_id, "You are not authorized to interact with this bot.",
            bot_send E (n_send w))]
  /\ warnings (trace w')
     = warnings (trace w)
       ++ [[L "Received message from unauthorized user: `";
            V (PStr chat_username); L "` (chat_id: `";
            V (PInt chat_id); L "`)."]].
Proof.
  intros Hauth.
  destruct (respond_unauthorized E cfg content_type chat_type chat_username
              chat_id w Hauth) as (w' & Hr & Hh & _ & Ha & Hw).
  rewrite Hr. cbv zeta. unfold fst, snd. repeat split; assumption.
Qed.

Lemma respond_rejects_unauthorized_witness :
  let E := steady_net "1.2.3.4" in
  let w := initial_world ∅ true in
  let w' := snd (respond E sample_cfg "text" "private" "mallory" 42 w) in
  fst (respond E sample_cfg "text" "private" "mallory" 42 w) = Ok tt
  /\ n_http w' = n_http w
  /\ attempts (trace w')
     = attempts (trace w)
       ++ [(PInt 42, "You are not authorized to interact with this bot.", true)]
  /\ warnings (trace w')
     = warnings (trace w)
       ++ [[L "Received message from unauthorized user: `";
            V (PStr "mallory"); L "` (chat_id: `"; V (PInt 42); L "`)."]].
Proof.
  intros E w.
  apply (respond_rejects_unauthorized E sample_cfg "text" "private" "mallory"
           42 w); reflexivity.
Defined.

(** ** The logging set-up *)

Lemma list_remove_middle (h : handler) (kept rest : list handler) :
  h ∉ kept -> list_remove h (kept ++ h :: rest) = kept ++ rest.
Proof.
  induction kept as [|x kept IH]; intros Hnot; simpl.
  - now rewrite decide_True.
  - apply not_elem_of_cons in Hnot as [Hne Hnot].
    rewrite decide_False by congruence. now rewrite IH.
Qed.

Lemma removeHandler_middle (h : handler) (kept rest : list handler) :
  h ∉ kept -> removeHandler h (kept ++ h :: rest) = kept ++ rest.
Proof.
  intros Hnot. unfold removeHandler.
  rewrite decide_True by (apply elem_of_app; right; left).
  now apply list_remove_middle.
Qed.

(** The loop, entered at the index [length kept]: of the handlers from
    there on it removes the first, steps over the second, and so on. *)
Lemma remove_each_from (fuel : nat) (kept rest : list handler) :
  (length rest <= fuel)%nat ->
  NoDup (kept ++ rest) ->
  remove_each fuel (length kept) (kept ++ rest) = kept ++ every_second rest.
Proof.
  revert kept rest. induction fuel as [|fuel IH]; intros kept rest Hfuel Hnd.
  - destruct rest; [|simpl in Hfuel; lia]. reflexivity.
  - simpl remove_each. destruct rest as [|h [|k rest]].
    + simpl every_second. rewrite !app_nil_r, lookup_ge_None_2 by lia.
      reflexivity.
    + rewrite list_lookup_middle by reflexivity.
      apply NoDup_app in Hnd as (_ & Hdisj & _).
      rewrite removeHandler_middle
        by (intros Hin; apply (Hdisj h Hin); left).
      simpl every_second. rewrite !app_nil_r.
      destruct fuel; [reflexivity|]. simpl remove_each.
      rewrite lookup_ge_None_2 by lia. reflexivity.
    + rewrite list_lookup_middle by reflexivity.
      pose proof Hnd as Hnd'.
      apply NoDup_app in Hnd' as (_ & Hdisj & _).
      rewrite removeHandler_middle
        by (intros Hin; apply (Hdisj h Hin); left).
      replace (kept ++ k :: rest) with ((kept ++ [k]) ++ rest)
        by (now rewrite <- app_assoc).
      replace (S (length kept)) with (length (kept ++ [k]))
        by (rewrite length_app; simpl; lia).
      rewrite IH.
      * simpl. now rewrite <- app_assoc.
      * simpl in Hfuel. lia.
      * rewrite <- app_assoc. simpl.
        apply NoDup_app in Hnd as (Hk & Hd & Hr).
        apply NoDup_app. split; [exact Hk|]. split.
        -- intros x Hx Hin. apply (Hd x Hx). now right.
        -- now apply NoDup_cons in Hr as [_ Hr].
Qed.

Lemma addHandler_elem (h x : handler) (hs : list handler) :
  x ∈ addHandler h hs <-> x ∈ hs \/ x = h.
Proof.
  unfold addHandler. destruct (decide (h ∈ hs)) as [Hin|Hnot].
  - split; [now left|]. intros [H | ->]; assumption.
  - rewrite elem_of_app, list_elem_of_singleton. reflexivity.
Qed.

Lemma addHandler_NoDup (h : handler) (hs : list handler) :
  NoDup hs -> NoDup (addHandler h hs).
Proof.
  intros Hnd. unfold addHandler. destruct (decide (h ∈ hs)) as [Hin|Hnot].
  - exact Hnd.
  - apply NoDup_app. split; [exact Hnd|]. split.
    + intros x Hx Hx'. apply list_elem_of_singleton in Hx'. now subst.
    + apply NoDup_singleton.
Qed.

Lemma every_second_sub (hs : list handler) (x : handler) :
  (x ∈ every_second hs -> x ∈ hs)
  /\ (forall a, x ∈ every_second (a :: hs) -> x ∈ a :: hs).
Proof.
  induction hs as [|h hs [IH1 IH2]].
  - split; [|intros a]; simpl; intros H; inversion H.
  - split; [apply IH2|].
    intros a. simpl. intros Hin. right.
    apply elem_of_cons in Hin as [-> | Hin]; [left|right; now apply IH1].
Qed.

Lemma every_second_sublist (hs : list handler) :
  every_second hs `sublist_of` hs
  /\ (forall a, every_second (a :: hs) `sublist_of` a :: hs).
Proof.
  induction hs as [|h hs [IH1 IH2]].
  - split; [|intros a]; simpl; [constructor|apply sublist_nil_l].
  - split; [apply IH2|].
    intros a. simpl. apply sublist_cons. now apply sublist_skip.
Qed.

(** X8.  [configure_logger] on a logger whose handlers are pairwise
    distinct: the loop that should empty the list removes the handlers at
    the even positions only and leaves every second one, since it removes
    from the list it iterates; the two handlers of the script are then
    added, each unless it is already there.  So a logger with at most one
    handler ends with exactly the stream and the file handler, a logger
    with more keeps stale ones; in every case the level is [INFO], the
    logger is registered under its name, and both handlers are present
    once. *)
Theorem configure_logger_keeps_every_second
    (logger_name : string) (loggers : gmap string logger) :
  NoDup (handlers (getLogger logger_name loggers)) ->
  let before := handlers (getLogger logger_name loggers) in
  let lg := fst (configure_logger logger_name loggers) in
  handlers lg
  = addHandler LOG_FILE_HANDLER
      (addHandler LOG_STREAM_HANDLER (every_second before))
  /\ logger_level lg = Some INFO
  /\ snd (configure_logger logger_name loggers) !! logger_name = Some lg
  /\ NoDup (handlers lg)
  /\ LOG_STREAM_HANDLER ∈ handlers lg
  /\ LOG_FILE_HANDLER ∈ handlers lg
  /\ ((length before <= 1)%nat ->
      handlers lg = [LOG_STREAM_HANDLER; LOG_FILE_HANDLER])
  /\ (forall h, h ∈ every_second before -> h ∈ handlers lg).
Proof.
  intros Hnd before lg.
  assert (Hloop : remove_each (length before) 0 before = every_second before).
  { apply (remove_each_from (length before) [] before); [lia|exact Hnd]. }
  assert (Hh : handlers lg
               = addHandler LOG_FILE_HANDLER
                   (addHandler LOG_STREAM_HANDLER (every_second before))).
  { unfold lg, configure_logger. simpl. fold before. now rewrite Hloop. }
  split; [exact Hh|]. split; [reflexivity|].
  split; [unfold lg, configure_logger; simpl; apply lookup_insert_eq|].
  rewrite Hh. split; [|split; [|split; [|split]]].
  - apply addHandler_NoDup, addHandler_NoDup.
    eapply sublist_NoDup; [exact Hnd|apply every_second_sublist].
  - apply addHandler_elem. left. apply addHandler_elem. now right.
  - apply addHandler_elem. now right.
  - intros Hlen. destruct before as [|a [|b rest]]; try reflexivity.
    simpl in Hlen. lia.
  - intros h Hin. apply addHandler_elem. left. apply addHandler_elem. now left.
Qed.

(** Three handlers before: the second one is still there afterwards. *)
Lemma configure_logger_keeps_every_second_witness :
  let loggers : gmap string logger :=
    {[ "root" := {| logger_level := None;
                    handlers := [OtherHandler 0; OtherHandler 1;
                                 OtherHandler 2] |} ]} in
  handlers (fst (configure_logger "root" loggers))
  = [OtherHandler 1; LOG_STREAM_HANDLER; LOG_FILE_HANDLER].
Proof.
  intros loggers.
  destruct (configure_logger_keeps_every_second "root" loggers) as [H _].
  - change (NoDup [OtherHandler 0; OtherHandler 1; OtherHandler 2]).
    compute_done.
  - rewrite H. reflexivity.
Defined.

(** ** Runs of the poller *)

Lemma ip_differs_false (ip : string) (last : option string) :
  ip_differs ip last = false -> last = Some ip.
Proof.
  destruct last as [l|]; simpl; [|discriminate].
  intros H. apply negb_false_iff, String.eqb_eq in H. now subst.
Qed.

(** X9.  With an admin chat id configured and every send succeeding, a run
    of turns whose fetches all succeed sends one notification for each
    fetched address that differs from the address recorded before it, and
    none for a repeated address; the notifications go to the admin chat id,
    in order, each carrying its address, and [last_ip] ends as the last
    address fetched. *)
Theorem poller_announces_each_change
    (E : env) (cfg : config) (ips : list string) (w : world) :
  not_None (admin_chat_id cfg) = true ->
  (forall k, bot_send E k = true) ->
  fetches_return E (n_http w) ips ->
  let w' := snd (main_loop E cfg (length ips) w) in
  fst (main_loop E cfg (length ips) w) = Ok tt
  /\ attempts (trace w')
     = attempts (trace w)
       ++ map (fun ip => (admin_chat_id cfg, ip_notice ip, true))
              (changes (last_ip w) ips)
  /\ last_ip w' = fold_left (fun _ ip => Some ip) ips (last_ip w).
Proof.
  intros Hadmin Hsend. revert w.
  induction ips as [|ip rest IH]; intros w Hfetch.
  - simpl. rewrite app_nil_r. repeat split.
  - destruct Hfetch as [Hfirst Hrest].
    destruct (poller_tick_effect E cfg w) as (Hrun & Hh & Hl & Ha & _).
    set (w1 := snd (poller_tick E cfg w)) in *.
    rewrite Hfirst, fetched_200, Hsend in Hl, Ha.
    rewrite <- Hh in Hrest.
    destruct (IH w1 Hrest) as (Hok & Hatt & Hlast).
    simpl length. rewrite (main_loop_S E cfg (length rest) w w1 Hrun).
    cbv zeta. split; [exact Hok|].
    rewrite Hatt, Hlast, Ha, Hl. unfold turn_effect. simpl changes.
    simpl fold_left.
    destruct (ip_differs ip (last_ip w)) eqn:Hdiff.
    + rewrite Hadmin. simpl. rewrite <- app_assoc. split; reflexivity.
    + simpl. rewrite app_nil_r. split; [reflexivity|].
      now rewrite (ip_differs_false ip (last_ip w) Hdiff).
Qed.

Lemma poller_announces_each_change_witness :
  let ips := ["10.0.0.1"; "10.0.0.1"; "10.0.0.2"; "10.0.0.1"; "10.0.0.1";
              "10.0.0.3"] in
  let E := scripted_net ips (fun _ => true) in
  let w := initial_world ∅ true in
  let w' := snd (main_loop E sample_cfg (length ips) w) in
  fst (main_loop E sample_cfg (length ips) w) = Ok tt
  /\ attempts (trace w')
     = [(PInt 42, ip_notice "10.0.0.1", true);
        (PInt 42, ip_notice "10.0.0.2", true);
        (PInt 42, ip_notice "10.0.0.1", true);
        (PInt 42, ip_notice "10.0.0.3", true)]
  /\ last_ip w' = Some "10.0.0.3".
Proof.
  intros ips E w.
  apply (poller_announces_each_change E sample_cfg ips w).
  - reflexivity.
  - intros k. reflexivity.
  - simpl. repeat split.
Defined.

(** X10.  A turn of the poller whose fetch returns the address already
    recorded is silent: it makes its one request, attempts no send, and
    leaves [last_ip] as it is. *)
Theorem same_address_is_silent
    (E : env) (cfg : config) (w : world) (ip : string) :
  fetched (http_get E (n_http w)) = Some ip ->
  last_ip w = Some ip ->
  let w' := snd (poller_tick E cfg w) in
  fst (poller_tick E cfg w) = Ok tt
  /\ attempts (trace w') = attempts (trace w)
  /\ n_send w' = n_send w
  /\ last_ip w' = Some ip
  /\ n_http w' = S (n_http w).
Proof.
  intros Hfetch Hlast.
  destruct (poller_tick_effect E cfg w) as (Hrun & Hh & Hl & Ha & Hs).
  rewrite Hfetch, Hlast in Hl, Ha, Hs. unfold turn_effect in Hl, Ha, Hs.
  rewrite ip_differs_same in Hl, Ha, Hs. simpl in Hl, Ha, Hs.
  rewrite app_nil_r in Ha. cbv zeta.
  split; [now rewrite Hrun|]. repeat split; try assumption. lia.
Qed.

Lemma same_address_is_silent_witness :
  let E := steady_net "10.0.0.1" in
  let w := set_last_ip (Some "10.0.0.1") (initial_world ∅ true) in
  let w' := snd (poller_tick E sample_cfg w) in
  fst (poller_tick E sample_cfg w) = Ok tt
  /\ attempts (trace w') = attempts (trace w)
  /\ n_send w' = n_send w
  /\ last_ip w' = Some "10.0.0.1"
  /\ n_http w' = S (n_http w).
Proof.
  intros E w.
  apply (same_address_is_silent E sample_cfg w "10.0.0.1"); reflexivity.
Defined.


(** One turn: one request to the address service, then one sleep of 60
    seconds, in every case. *)
Lemma poller_tick_pace (E : env) (cfg : config) (w : world) :
  let w' := snd (poller_tick E cfg w) in
  sleeps (trace w') = sleeps (trace w) ++ [60]
  /\ requests (trace w') = requests (trace w) ++ ["https://api.ipify.org"].
Proof.
  unfold poller_tick, loop_turn, check_ip, get_ip, requests_get, decode,
    send_message, bot_sendMessage.
  run.
  destruct (http_get E (n_http w)) as [|status [body|]]; simpl;
    try destruct (status =? 200); simpl;
    try destruct (ip_differs body (last_ip w)); simpl;
    try destruct (not_None (admin_chat_id cfg)); simpl;
    try destruct (bot_send E (n_send w)); simpl;
    unfold sleeps, requests; rewrite !flat_map_app; simpl;
    rewrite ?app_nil_r; split; reflexivity.
Qed.

(** X12.  The main loop keeps its pace whatever happens in a turn: [n]
    turns make exactly [n] requests, all to [https://api.ipify.org], and
    sleep exactly [n] times, 60 seconds each, whether the fetches or the
    sends fail or not. *)
Theorem main_loop_keeps_its_pace
    (E : env) (cfg : config) (n : nat) (w : world) :
  let w' := snd (main_loop E cfg n w) in
  fst (main_loop E cfg n w) = Ok tt
  /\ sleeps (trace w') = sleeps (trace w) ++ repeat 60 n
  /\ requests (trace w')
     = requests (trace w) ++ repeat "https://api.ipify.org" n
  /\ n_http w' = (n_http w + n)%nat.
Proof.
  revert w. induction n as [|n IH]; intros w.
  - simpl. rewrite !app_nil_r. repeat split. lia.
  - destruct (poller_tick_effect E cfg w) as (Hrun & Hh & _).
    destruct (poller_tick_pace E cfg w) as [Hs Hr].
    set (w1 := snd (poller_tick E cfg w)) in *.
    rewrite (main_loop_S E cfg n w w1 Hrun).
    destruct (IH w1) as (Hok & Hs' & Hr' & Hn).
    cbv zeta. rewrite Hs', Hr', Hn, Hs, Hr, Hh, <- !app_assoc. simpl.
    repeat split; try assumption. lia.
Qed.

(** ** The configuration stage stays off the network *)

Lemma quiet_refl (w : world) : quiet w w.
Proof. constructor; reflexivity. Qed.

Lemma quiet_trans (w1 w2 w3 : world) : quiet w1 w2 -> quiet w2 w3 -> quiet w1 w3.
Proof.
  intros [H1 H2 H3 H4 H5] [K1 K2 K3 K4 K5].
  constructor; congruence.
Qed.

Lemma quiet_emit (ev : event) (w : world) :
  match ev with
  | SendMessage _ _ _ | HttpGet _ => False
  | _ => True
  end ->
  quiet w (emit ev w).
Proof.
  intros Hev. constructor; try reflexivity; simpl;
    unfold attempts, requests; rewrite flat_map_app; simpl;
    destruct ev; try contradiction; simpl; apply app_nil_r.
Qed.

Lemma offline_ret {A} (a : A) : offline (ret a).
Proof. intros w. apply quiet_refl. Qed.

Lemma offline_raise {A} (e : exn) : offline (@raise A e).
Proof. intros w. apply quiet_refl. Qed.

Lemma offline_get : offline get.
Proof. intros w. apply quiet_refl. Qed.

Lemma offline_modify (f : world -> world) :
  (forall w, quiet w (f w)) -> offline (modify f).
Proof. intros H w. apply H. Qed.

Lemma offline_bind {A B} (m : M A) (k : A -> M B) :
  offline m -> (forall a, offline (k a)) -> offline (bind m k).
Proof.
  intros Hm Hk w. unfold bind. specialize (Hm w).
  destruct (m w) as [[a|e] w1]; simpl in *; [|exact Hm].
  apply (quiet_trans w w1); [exact Hm|apply Hk].
Qed.

Lemma offline_try_except {A} (body : M A) (handler : exn -> M A) :
  offline body -> (forall e, offline (handler e)) ->
  offline (try_except body handler).
Proof.
  intros Hb Hh w. unfold try_except. specialize (Hb w).
  destruct (body w) as [[a|e] w1]; simpl in *; [exact Hb|].
  destruct (is_Exception e); [|exact Hb].
  apply (quiet_trans w w1); [exact Hb|apply Hh].
Qed.

Lemma offline_log (lv : level) (msg : list frag) : offline (log lv msg).
Proof. apply offline_modify. intros w. now apply quiet_emit. Qed.

Lemma offline_log_exception (e : exn) : offline (log_exception e).
Proof. apply offline_modify. intros w. now apply quiet_emit. Qed.

Lemma offline_print (s : string) : offline (print s).
Proof. apply offline_modify. intros w. now apply quiet_emit. Qed.

Lemma offline_set_fs (f : world -> gmap string node) :
  offline (modify (fun w => set_fs (f w) w)).
Proof. apply offline_modify. intros w. constructor; reflexivity. Qed.

Ltac offline_step :=
  first
    [ apply offline_ret | apply offline_raise | apply offline_get
    | apply offline_log | apply offline_log_exception | apply offline_print
    | apply offline_bind; [|intros ?]
    | apply offline_try_except; [|intros ?]
    | apply offline_modify; intros ?; constructor; reflexivity ].

Lemma offline_read_json (path : string) : offline (read_json path).
Proof.
  unfold read_json, open_r, json_load. repeat offline_step.
  - destruct (fs _ !! path) as [[|[|] ? ?]|]; offline_step.
  - match goal with c : content |- _ => destruct c end; offline_step.
Qed.

Lemma offline_write_json (path : string) (data : pyval) :
  offline (write_json path data).
Proof.
  unfold write_json, open_w, json_dump, sys_exit. repeat offline_step.
  - destruct (fs _ !! path) as [[|? [|] ?]|]; try destruct (can_create _);
      repeat offline_step.
  - match goal with o : pyobj |- _ => destruct o end; unfold file_write;
      repeat offline_step.
Qed.

Lemma offline_read_field (key : string) (dictionary : pyval) :
  offline (read_field key dictionary).
Proof.
  unfold read_field, global_configuration, lift. repeat offline_step.
  - destruct (configuration _); offline_step.
  - destruct (getitem _ key); offline_step.
  - destruct (not_None _); repeat offline_step.
  - match goal with o : option pyval |- _ => destruct o end;
      repeat offline_step.
Qed.

Lemma offline_load_configuration : offline load_configuration.
Proof.
  unfold load_configuration, file_exists, sys_exit.
  apply offline_bind; [repeat offline_step|]. intros found.
  destruct found.
  - apply offline_bind; [apply offline_read_json|]. intros v.
    apply offline_bind; [offline_step|].
    intros _. destruct (not_None v); [|repeat offline_step].
    apply offline_bind; [apply offline_read_field|]. intros bt.
    apply offline_bind; [apply offline_read_field|]. intros au.
    apply offline_bind; [apply offline_read_field|]. intros ac.
    destruct (is_None bt || is_None au || is_None ac); repeat offline_step.
  - apply offline_bind; [apply offline_log|]. intros _.
    apply offline_bind; [apply offline_write_json|]. intros _.
    repeat offline_step.
Qed.

(** X13.  The configuration stage ends in one of three ways and in no
    other: without a readable configuration file the script exits with
    code 0; with one it either goes on with a configuration or exits with
    code 1.  No other exception leaves it, and up to that point the script
    has made no request, sent no message and not touched [last_ip]. *)
Theorem configuration_stage_outcomes (w : world) :
  let found := match fs w !! CONFIGURATION_FILE_PATH with
               | Some (File readable _ _) => readable
               | _ => false
               end in
  (found = false -> fst (load_configuration w) = Raise (SystemExit 0))
  /\ (found = true ->
      (exists cfg, fst (load_configuration w) = Ok cfg)
      \/ fst (load_configuration w) = Raise (SystemExit 1))
  /\ quiet w (snd (load_configuration w)).
Proof.
  cbv zeta. split; [|split].
  - intros Habsent.
    destruct (load_configuration_absent w Habsent) as (w' & H & _).
    now rewrite H.
  - intros Hfound.
    destruct (fs w !! CONFIGURATION_FILE_PATH) as [[|[|] writable c]|] eqn:Hfile;
      try discriminate.
    destruct (load_configuration_present w writable c Hfile) as (w' & H & _).
    rewrite H. destruct (complete (parsed c)); [left; eauto|now right].
  - apply offline_load_configuration.
Qed.





(** X16.  [read_field] reads the module global [configuration] and never
    its second argument.  When the key is present there with a value that
    is not null, that value is returned and nothing is logged; in every
    other case (key missing, value null, configuration not an object) the
    result is [None], no exception leaves the function, and the last record
    logged is the error naming the key. *)
Theorem read_field_reads_the_global
    (key : string) (dictionary v : pyval) (w : world) :
  configuration w = Some v ->
  (has_field v key = true ->
   exists x, getitem v key = inr x
             /\ read_field key dictionary w = (Ok x, w))
  /\ (has_field v key = false ->
      fst (read_field key dictionary w) = Ok PNone
      /\ last (trace (snd (read_field key dictionary w)))
         = Some (Log ERROR [L "Failed to read value of `"; V (PStr key);
                            L "`."])).
Proof.
  intros Hcfg. unfold has_field.
  unfold read_field, global_configuration. run. rewrite Hcfg. simpl.
  destruct (getitem v key) as [e|x] eqn:Hget; simpl.
  - rewrite (getitem_raises_Exception v key e Hget).
    split; [discriminate|]. intros _. simpl.
    split; [reflexivity|]. apply last_snoc.
  - split.
    + intros Hx. exists x. split; [reflexivity|]. now rewrite Hx.
    + intros Hx. rewrite Hx. simpl. split; [reflexivity|].
      apply last_snoc.
Qed.

(** The argument is an empty dict, the global is the sample: the token is
    found. *)
Lemma read_field_reads_the_global_witness :
  let w := set_configuration (Some sample_json) (initial_world ∅ true) in
  read_field "bot_token" (PDict ∅) w = (Ok (bot_token sample_cfg), w)
  /\ fst (read_field "chat" sample_json w) = Ok PNone.
Proof.
  intros w.
  destruct (read_field_reads_the_global "bot_token" (PDict ∅) sample_json w
              eq_refl) as [Hread _].
  destruct (read_field_reads_the_global "chat" sample_json sample_json w
              eq_refl) as [_ Hfail].
  destruct (Hread eq_refl) as (x & Hx & Hr).
  destruct (Hfail eq_refl) as [Hnone _].
  split; [|exact Hnone].
  rewrite Hr. vm_compute in Hx. now injection Hx as <-.
Defined.


(** ** Sends that keep failing *)

(** X18.  There is no back-off and no limit on retries: while the address
    service keeps returning an address [ip] that differs from [last_ip] and
    every send fails, each turn of the poller attempts the same
    notification again, so [n] turns make [n] failed attempts, and
    [last_ip] stays as it was. *)
Theorem failed_sends_are_retried_every_turn
    (E : env) (cfg : config) (ip : string) (n : nat) (w : world) :
  not_None (admin_chat_id cfg) = true ->
  ip_differs ip (last_ip w) = true ->
  (forall k, http_get E k = HttpResponse 200 (Some ip)) ->
  (forall k, bot_send E k = false) ->
  let w' := snd (main_loop E cfg n w) in
  attempts (trace w')
  = attempts (trace w) ++ repeat (admin_chat_id cfg, ip_notice ip, false) n
  /\ deliveries (trace w') = deliveries (trace w)
  /\ last_ip w' = last_ip w.
Proof.
  intros Hadmin Hdiff Hfetch Hsend. revert w Hdiff.
  assert (Hrep : forall m,
             flat_map (fun a : pyval * string * bool =>
                         match a with
                         | (c, t, true) => [(c, t)]
                         | (_, _, false) => []
                         end)
               (repeat (admin_chat_id cfg, ip_notice ip, false) m) = []).
  { induction m; simpl; auto. }
  induction n as [|n IH]; intros w Hdiff.
  - simpl. rewrite app_nil_r. repeat split.
  - destruct (poller_tick_effect E cfg w) as (Hrun & _ & Hl & Ha & _).
    set (w1 := snd (poller_tick E cfg w)) in *.
    rewrite Hfetch, fetched_200, Hsend in Hl, Ha. unfold turn_effect in Hl, Ha.
    rewrite Hdiff, Hadmin in Hl, Ha. simpl in Hl, Ha.
    rewrite (main_loop_S E cfg n w w1 Hrun).
    destruct (IH w1) as (Hatt & Hdel & Hlast); [now rewrite Hl|].
    cbv zeta. rewrite Hlast, Hl. split; [|split; [|reflexivity]].
    + rewrite Hatt, Ha, <- app_assoc. reflexivity.
    + unfold deliveries. rewrite Hatt, Ha, !flat_map_app, Hrep. simpl.
      now rewrite !app_nil_r.
Qed.

Lemma failed_sends_are_retried_every_turn_witness :
  let E := {| http_get := fun _ => HttpResponse 200 (Some "10.0.0.1");
              bot_send := fun _ => false |} in
  let w := initial_world ∅ true in
  let w' := snd (main_loop E sample_cfg 3 w) in
  attempts (trace w')
  = attempts (trace w) ++ repeat (PInt 42, ip_notice "10.0.0.1", false) 3
  /\ deliveries (trace w') = deliveries (trace w)
  /\ last_ip w' = last_ip w.
Proof.
  intros E w.
  apply (failed_sends_are_retried_every_turn E sample_cfg "10.0.0.1" 3 w);
    try reflexivity; intros k; reflexivity.
Defined.

(** ** The start of the bot *)






